(** * neoSPI: the neopixel protocol on an SPI bus

    A shallow embedding of [neoSPI.py]: the byte codec ([_expand_byte],
    [_compress_byte]) and the [NeoPixel] buffer object with its integer,
    paired and slice addressing and its [rotate] method.

    Python integers are [Z]; the bytearray behind [self._data] is a
    [list Z]; a memoryview is a window (offset and length) into that
    bytearray, so that writes through a slice of a slice land in the shared
    storage.  An exception leaves the buffer as it was when it was raised:
    every mutating operation returns the buffer together with its outcome. *)

From stdpp Require Import base list numbers.
From Stdlib Require Import ZArith Lia.

Local Open Scope Z_scope.

(** ** Exceptions and outcomes *)

Inductive exn : Type :=
  | IndexError
  | ValueError
  | NotImplementedError
  | TypeError
  | ZeroDivisionError.

Inductive outcome (A : Type) : Type :=
  | Return (a : A)
  | Raise (e : exn).

Arguments Return {A} a.
Arguments Raise {A} e.

Definition obind {A B} (o : outcome A) (f : A → outcome B) : outcome B :=
  match o with
  | Return a => f a
  | Raise e => Raise e
  end.

(** A statement running on the bytearray: the storage after it and what it
    returned or raised. *)
Definition M (A : Type) : Type := list Z → list Z * outcome A.

Definition ret {A} (a : A) : M A := fun buf => (buf, Return a).
Definition raise {A} (e : exn) : M A := fun buf => (buf, Raise e).
Definition bind {A B} (m : M A) (f : A → M B) : M B :=
  fun buf =>
    match m buf with
    | (buf', Return a) => f a buf'
    | (buf', Raise e) => (buf', Raise e)
    end.
Definition read {A} (f : list Z → outcome A) : M A := fun buf => (buf, f buf).

Notation "'do' x <- m ; k" := (bind m (fun x => k))
  (at level 10, x name, m at level 100, k at level 200).
Notation "m ;; k" := (bind m (fun _ => k))
  (at level 100, k at level 200, right associativity).
Notation "'try' x <- o ; k" := (obind o (fun x => k))
  (at level 10, x name, o at level 100, k at level 200).

(** [for x in xs: body x] *)
Fixpoint for_each {A} (xs : list A) (body : A → M unit) : M unit :=
  match xs with
  | [] => ret tt
  | x :: xs' => body x ;; for_each xs' body
  end.

(** [[f x for x in xs]] without side effects *)
Fixpoint comprehension {A B} (xs : list A) (f : A → outcome B) : outcome (list B) :=
  match xs with
  | [] => Return []
  | x :: xs' => try y <- f x; try ys <- comprehension xs' f; Return (y :: ys)
  end.

(** [range(start, stop, step)] for a positive step, over buffer offsets. *)
Definition py_range (start stop step : nat) : list nat :=
  (fun k => start + k * step)%nat <$> seq 0 ((stop - start + (step - 1)) / step)%nat.

(** ** Python values *)

#[local] Set Warnings "-register-all".

Inductive pyvalue : Type :=
  | VInt (z : Z)
  | VTuple (l : list pyvalue)
  | VList (l : list pyvalue)
  | VOther.

Inductive pyindex : Type :=
  | IInt (i : Z)
  | ISlice (start stop step : option Z)
  | ITuple (l : list pyindex)
  | IOther.

(** ** Memoryviews *)

Record memoryview : Type := MView { mv_off : nat; mv_len : nat }.

(** One bound of a slice [a:b] of a sequence of [len] items. *)
Definition slice_bound (len : nat) (dflt : nat) (x : option Z) : nat :=
  match x with
  | None => dflt
  | Some x =>
      if x <? 0 then Z.to_nat (Z.max 0 (x + Z.of_nat len))
      else Z.to_nat (Z.min x (Z.of_nat len))
  end.

(** [mv[a:b]]: a view of the same storage. *)
Definition mv_slice (mv : memoryview) (a b : option Z) : memoryview :=
  let s := slice_bound (mv_len mv) 0 a in
  let e := slice_bound (mv_len mv) (mv_len mv) b in
  MView (mv_off mv + s) (e - s).

(** The items a view shows, as [bytearray(mv)] or iteration reads them. *)
Definition mv_items (mv : memoryview) (buf : list Z) : list Z :=
  take (mv_len mv) (drop (mv_off mv) buf).

(** [mv[k] = x] for a constant index [k]. *)
Definition mv_setitem (mv : memoryview) (k : nat) (x : Z) : M unit :=
  fun buf =>
    if decide (k < mv_len mv)%nat
    then (<[(mv_off mv + k)%nat := x]> buf, Return tt)
    else (buf, Raise IndexError).

(** [mv[a:b] = src]: the sizes must agree. *)
Definition mv_setslice (mv : memoryview) (a b : option Z) (src : list Z) : M unit :=
  fun buf =>
    let dst := mv_slice mv a b in
    if decide (length src = mv_len dst)
    then (list_inserts (mv_off dst) src buf, Return tt)
    else (buf, Raise ValueError).

(** ** The codec *)

Definition _expanded_bits : list Z := [0x88; 0x8C; 0xC8; 0xCC].

(** [_expanded_bits[i]]; every caller masks [i] with [0x3]. *)
Definition expanded_bit (i : Z) : Z := nth (Z.to_nat i) _expanded_bits 0.

Definition _expand_byte (b : pyvalue) (mv : memoryview) : M unit :=
  match b with
  | VInt b =>
      mv_setitem mv 0 (expanded_bit (Z.land (Z.shiftr b 6) 0x3)) ;;
      mv_setitem mv 1 (expanded_bit (Z.land (Z.shiftr b 4) 0x3)) ;;
      mv_setitem mv 2 (expanded_bit (Z.land (Z.shiftr b 2) 0x3)) ;;
      mv_setitem mv 3 (expanded_bit (Z.land b 0x3))
  | _ => raise TypeError
  end.

(** The four bytes [_expand_byte] stores for an integer [b], as a list. *)
Definition expand (b : Z) : list Z :=
  [expanded_bit (Z.land (Z.shiftr b 6) 0x3);
   expanded_bit (Z.land (Z.shiftr b 4) 0x3);
   expanded_bit (Z.land (Z.shiftr b 2) 0x3);
   expanded_bit (Z.land b 0x3)].

Definition _compress_byte (mv : list Z) : outcome Z :=
  match mv with
  | [b1; b2; b3; b4] =>
      let T := 0x40 in
      let B := 0x04 in
      Return
        (Z.lor (Z.lor (Z.lor (Z.lor (Z.lor (Z.lor (Z.lor
           (Z.shiftl (Z.land b1 T) 1) (Z.shiftl (Z.land b1 B) 4))
           (Z.shiftr (Z.land b2 T) 1)) (Z.shiftl (Z.land b2 B) 2))
           (Z.shiftr (Z.land b3 T) 3)) (Z.land b3 B))
           (Z.shiftr (Z.land b4 T) 5)) (Z.shiftr (Z.land b4 B) 2))
  | _ => Raise ValueError
  end.

(** ** The NeoPixel object *)

Record NeoPixel : Type := { _n : Z; _data : list Z }.

(** The memoryview [self._data] covers the whole bytearray. *)
Definition data_view (self : NeoPixel) : memoryview := MView 0 (length (_data self)).

(** Run a method body on the object's storage. *)
Definition method {A} (self : NeoPixel) (body : M A) : NeoPixel * outcome A :=
  let (buf, r) := body (_data self) in
  ({| _n := _n self; _data := buf |}, r).

Definition _unpack_slice (self : NeoPixel) (start stop step : option Z)
  : outcome (Z * Z * Z) :=
  if match step with Some st => negb (st =? 1) | None => false end
  then Raise NotImplementedError
  else
    let step := 1 in
    let start :=
      match start with
      | None => 0
      | Some s => if s <? 0 then s + _n self else s
      end in
    let stop :=
      match stop with
      | None => _n self
      | Some s => if s <? 0 then s + _n self else s
      end in
    Return (start, stop, step).

(** [_compress_byte(mv[a:b])] *)
Definition compress_at (mv : memoryview) (a b : Z) (buf : list Z) : outcome Z :=
  _compress_byte (mv_items (mv_slice mv (Some a) (Some b)) buf).

Definition __getitem__ (self : NeoPixel) (index : pyindex) : outcome pyvalue :=
  let buf := _data self in
  let data := data_view self in
  let n := _n self in
  match index with
  | IInt index =>
      if (index <? - n) || (index >=? n) then Raise IndexError
      else
        let index := index * 12 in
        try c0 <- compress_at data index (index + 4) buf;
        try c1 <- compress_at data (index + 4) (index + 8) buf;
        try c2 <- compress_at data (index + 8) (index + 12) buf;
        Return (VTuple [VInt c0; VInt c1; VInt c2])
  | ITuple index =>
      match index with
      | [ind1; ind2] =>
          match ind1, ind2 with
          | ISlice _ _ _, _ => Raise NotImplementedError
          | IInt ind1, IInt ind2 =>
              if (ind1 <? - n) || (ind1 >=? n) || (ind2 <? 0) || (ind2 >=? 3)
              then Raise IndexError
              else
                let ind1 := ind1 * 12 in
                let ind1 := ind1 + ind2 * 4 in
                try c <- compress_at data ind1 (ind1 + 4) buf;
                Return (VInt c)
          | _, _ => Raise IndexError
          end
      | _ => Raise IndexError
      end
  | ISlice start stop step =>
      try sss <- _unpack_slice self start stop step;
      let '(start, stop, step) := sss in
      let dd := mv_slice data (Some (start * 12)) (Some (stop * 12)) in
      try pixels <-
        comprehension (py_range 0 (mv_len dd) 12) (fun i =>
          let i := Z.of_nat i in
          try c0 <- compress_at dd i (i + 4) buf;
          try c1 <- compress_at dd (i + 4) (i + 8) buf;
          try c2 <- compress_at dd (i + 8) (i + 12) buf;
          Return (VTuple [VInt c0; VInt c1; VInt c2]));
      Return (VList pixels)
  | IOther => Raise IndexError
  end.

(** [isinstance(i, tuple) and len(i) == 3] *)
Definition is_3tuple (v : pyvalue) : bool :=
  match v with
  | VTuple [_; _; _] => true
  | _ => false
  end.

Definition __setitem__ (self : NeoPixel) (index : pyindex) (value : pyvalue)
  : NeoPixel * outcome unit :=
  let data := data_view self in
  let n := _n self in
  method self
    match index with
    | IInt index =>
        if (index <? - n) || (index >=? n) then raise IndexError
        else
          match value with
          | VTuple [v0; v1; v2] =>
              let index := index * 12 in
              _expand_byte v0 (mv_slice data (Some index) (Some (index + 4))) ;;
              _expand_byte v1 (mv_slice data (Some (index + 4)) (Some (index + 8))) ;;
              _expand_byte v2 (mv_slice data (Some (index + 8)) (Some (index + 12)))
          | _ => raise ValueError
          end
    | ITuple index =>
        match index with
        | [ind1; ind2] =>
            match ind1, ind2 with
            | ISlice _ _ _, _ => raise NotImplementedError
            | IInt ind1, IInt ind2 =>
                if (ind1 <? - n) || (ind1 >=? n) || (ind2 <? 0) || (ind2 >=? 3)
                then raise IndexError
                else
                  match value with
                  | VInt v =>
                      if (v <? 0) || (v >? 255) then raise ValueError
                      else
                        let ind1 := ind1 * 12 in
                        let ind1 := ind1 + ind2 * 4 in
                        _expand_byte value (mv_slice data (Some ind1) (Some (ind1 + 4)))
                  | _ => raise ValueError
                  end
            | _, _ => raise IndexError
            end
        | _ => raise IndexError
        end
    | ISlice start stop step =>
        do sss <- read (fun _ => _unpack_slice self start stop step);
        let '(start, stop, step) := sss in
        let dd := mv_slice data (Some (start * 12)) (Some (stop * 12)) in
        if decide (mv_len dd = 0%nat) then ret tt
        else
          match value with
          | VTuple [v0; v1; v2] =>
              _expand_byte v0 (mv_slice dd (Some 0) (Some 4)) ;;
              _expand_byte v1 (mv_slice dd (Some 4) (Some 8)) ;;
              _expand_byte v2 (mv_slice dd (Some 8) (Some 12)) ;;
              for_each (py_range 12 (mv_len dd) 12) (fun i =>
                let i := Z.of_nat i in
                do src <- read (fun buf =>
                            Return (mv_items (mv_slice dd (Some 0) (Some 12)) buf));
                mv_setslice dd (Some i) (Some (i + 12)) src)
          | VList value =>
              if forallb is_3tuple value
              then
                for_each (py_range 0 (mv_len dd) 12) (fun i =>
                  match value !! (i / 3)%nat with
                  | None => raise IndexError
                  | Some (VTuple [v0; v1; v2]) =>
                      let i := Z.of_nat i in
                      _expand_byte v0 (mv_slice dd (Some (i + 0)) (Some (i + 4))) ;;
                      _expand_byte v1 (mv_slice dd (Some (i + 4)) (Some (i + 8))) ;;
                      _expand_byte v2 (mv_slice dd (Some (i + 8)) (Some (i + 12)))
                  | Some _ => raise ValueError
                  end)
              else raise ValueError
          | _ => raise ValueError
          end
    | IOther =>
        (* no final [else]: any other index falls through, [None] is returned *)
        ret tt
    end.

Definition rotate (self : NeoPixel) (count : Z) : NeoPixel * outcome unit :=
  let data := data_view self in
  method self
    (if _n self =? 0 then raise ZeroDivisionError
     else
       let count := count mod _n self in
       let count := count * 12 in
       do tail <- read (fun buf => Return (mv_items (mv_slice data (Some (- count)) None) buf));
       do head <- read (fun buf => Return (mv_items (mv_slice data None (Some (- count))) buf));
       mv_setslice data (Some count) None head ;;
       mv_setslice data None (Some count) tail).

(** [NeoPixel(spi_device, pixel_count)]: the bytearray is allocated zeroed,
    then [self[:] = (0,0,0)] encodes black into every pixel. *)
Definition __init__ (pixel_count : Z) : NeoPixel * outcome unit :=
  if pixel_count <? 0 then ({| _n := pixel_count; _data := [] |}, Raise ValueError)
  else
    let self := {| _n := pixel_count;
                   _data := replicate (Z.to_nat (pixel_count * 12)) 0 |} in
    __setitem__ self (ISlice None None None) (VTuple [VInt 0; VInt 0; VInt 0]).

(** The property [n]. *)
Definition n (self : NeoPixel) : Z := _n self.

(** A freshly constructed strip of [pixel_count] pixels. *)
Definition strip (pixel_count : Z) : NeoPixel := fst (__init__ pixel_count).

(** ** Well-formed objects and what a buffer encodes *)

(** The buffer invariant: [pixel_count] is positive and the storage holds
    [pixel_count * 12] bytes. *)
Definition wf (self : NeoPixel) : Prop :=
  0 < _n self ∧ length (_data self) = Z.to_nat (_n self * 12).

(** The channel value encoded in the four bytes at offset [off]. *)
Definition channel (buf : list Z) (off : nat) : outcome Z :=
  _compress_byte (mv_items (MView off 4) buf).

(** A 3-tuple of integers. *)
Definition triple (a b c : Z) : pyvalue := VTuple [VInt a; VInt b; VInt c].

(** A list of 3-tuples of integers. *)
Definition triples (vs : list (Z * Z * Z)) : list pyvalue :=
  (fun v => let '(a, b, c) := v in triple a b c) <$> vs.

(** The pixel encoded in the twelve bytes at offset [off]. *)
Definition pixel (buf : list Z) (off : nat) : outcome pyvalue :=
  try c0 <- channel buf off;
  try c1 <- channel buf (off + 4)%nat;
  try c2 <- channel buf (off + 8)%nat;
  Return (triple c0 c1 c2).

(** The pixel position a slice bound [x] reaches once the memoryview has
    clamped [x * 12] to the buffer. *)
Definition clamp (n x : Z) : nat :=
  Z.to_nat (if x <? 0 then Z.max 0 (x + n) else Z.min x n).

(** The pixels encoded from pixel position [p] on, [k] of them. *)
Definition pixels (buf : list Z) (p k : nat) : outcome (list pyvalue) :=
  comprehension ((fun j => 12 * (p + j))%nat <$> seq 0 k) (pixel buf).

(** The twelve bytes that encode the pixel [(a, b, c)]. *)
Definition expand_pixel (a b c : Z) : list Z := expand a ++ expand b ++ expand c.

(** A buffer in which every byte is one of the four [_expanded_bits]. *)
Definition encoded (buf : list Z) : Prop :=
  Forall (fun b => b ∈ _expanded_bits) buf.

(** A statement keeps a property of the storage, whether it returns or
    raises. *)
Definition keeps (P : list Z → Prop) {A} (m : M A) : Prop :=
  ∀ buf, P buf → P (fst (m buf)).

(** A strip of four pixels of four different colours: pixel 0 is left
    black, pixels 1, 2 and 3 are set one by one. *)
Definition rainbow : NeoPixel :=
  let np := strip 4 in
  let np := fst (__setitem__ np (IInt 1) (triple 10 20 30)) in
  let np := fst (__setitem__ np (IInt 2) (triple 40 50 60)) in
  fst (__setitem__ np (IInt 3) (triple 70 80 90)).

(** * Verification *)

(** ** Windows of the storage *)

Section windows.
Local Open Scope nat_scope.
Implicit Types (buf src : list Z) (off len i j : nat).

Lemma lookup_mv_items off len buf i :
  mv_items (MView off len) buf !! i
  = if decide (i < len) then buf !! (off + i) else None.
Proof.
  unfold mv_items; simpl. rewrite lookup_take. case_decide; [|done].
  by rewrite lookup_drop.
Qed.

Lemma length_mv_items off len buf :
  off + len ≤ length buf → length (mv_items (MView off len) buf) = len.
Proof.
  intros. unfold mv_items; simpl. rewrite length_take, length_drop. lia.
Qed.

(** Two windows of the same size showing the same items are equal. *)
Lemma mv_items_ext o1 o2 len b1 b2 :
  (∀ i, i < len → b1 !! (o1 + i) = b2 !! (o2 + i)) →
  mv_items (MView o1 len) b1 = mv_items (MView o2 len) b2.
Proof.
  intros H. apply list_eq; intros i. rewrite !lookup_mv_items.
  case_decide; auto.
Qed.

Lemma lookup_inserts off src buf j :
  off + length src ≤ length buf →
  list_inserts off src buf !! j
  = if decide (off ≤ j < off + length src) then src !! (j - off) else buf !! j.
Proof.
  intros. case_decide.
  - apply list_lookup_inserts; lia.
  - destruct (decide (j < off)).
    + by apply list_lookup_inserts_lt.
    + apply list_lookup_inserts_ge; lia.
Qed.

(** Reading back the window that was just stored. *)
Lemma mv_items_inserts_same off src buf :
  off + length src ≤ length buf →
  mv_items (MView off (length src)) (list_inserts off src buf) = src.
Proof.
  intros. apply list_eq; intros i. rewrite lookup_mv_items.
  case_decide.
  - rewrite lookup_inserts by done. rewrite decide_True by lia.
    f_equal; lia.
  - symmetry. apply lookup_ge_None. lia.
Qed.

(** A store leaves every window that does not overlap it as it was. *)
Lemma mv_items_inserts_disjoint off src buf o len :
  off + length src ≤ length buf →
  o + len ≤ off ∨ off + length src ≤ o →
  mv_items (MView o len) (list_inserts off src buf) = mv_items (MView o len) buf.
Proof.
  intros ? Hd. apply mv_items_ext; intros i ?.
  rewrite lookup_inserts by done. rewrite decide_False by lia. done.
Qed.
End windows.

(** ** Slices that stay inside the view *)

Lemma mv_slice_inside mv a b :
  0 ≤ a ≤ b → b ≤ Z.of_nat (mv_len mv) →
  mv_slice mv (Some a) (Some b)
  = MView (mv_off mv + Z.to_nat a) (Z.to_nat (b - a)).
Proof.
  intros. unfold mv_slice, slice_bound.
  rewrite !(proj2 (Z.ltb_ge _ _)) by lia. f_equal; lia.
Qed.

(** ** The codec *)

Lemma expand_byte_run b off buf :
  (off + 4 ≤ length buf)%nat →
  _expand_byte (VInt b) (MView off 4) buf = (list_inserts off (expand b) buf, Return tt).
Proof.
  intros. unfold _expand_byte, bind, mv_setitem; simpl.
  f_equal. apply list_eq; intros j.
  rewrite !list_lookup_insert, !length_insert.
  repeat case_decide; try lia; try done; exfalso; lia.
Qed.

Lemma expand_mod b : expand (b mod 256) = expand b.
Proof.
  unfold expand.
  change 0x3 with (Z.ones 2). rewrite !Z.land_ones, !Z.shiftr_div_pow2 by lia.
  change (2 ^ 6) with 64. change (2 ^ 4) with 16. change (2 ^ 2) with 4.
  change (Z.ones 2) with 3. change (2 ^ 2) with 4.
  assert ((b `mod` 256 / 64) `mod` 4 = (b / 64) `mod` 4) as -> by (Z.div_mod_to_equations; lia).
  assert ((b `mod` 256 / 16) `mod` 4 = (b / 16) `mod` 4) as -> by (Z.div_mod_to_equations; lia).
  assert ((b `mod` 256 / 4) `mod` 4 = (b / 4) `mod` 4) as -> by (Z.div_mod_to_equations; lia).
  assert ((b `mod` 256) `mod` 4 = b `mod` 4) as -> by (Z.div_mod_to_equations; lia).
  reflexivity.
Qed.

Lemma compress_expand_table :
  forallb (fun k => match _compress_byte (expand (Z.of_nat k)) with
                    | Return r => r =? Z.of_nat k
                    | Raise _ => false
                    end) (seq 0 256) = true.
Proof. vm_compute. reflexivity. Qed.

Lemma compress_expand_byte v :
  0 ≤ v ≤ 255 → _compress_byte (expand v) = Return v.
Proof.
  intros Hv.
  pose proof (proj1 (forallb_forall _ _) compress_expand_table (Z.to_nat v)) as H.
  cbv beta in H. rewrite Z2Nat.id in H by lia.
  destruct (_compress_byte (expand v)) as [r|e].
  - f_equal. apply Z.eqb_eq, H, in_seq. lia.
  - discriminate H. apply in_seq. lia.
Qed.

Lemma compress_expand b : _compress_byte (expand b) = Return (b mod 256).
Proof.
  rewrite <- expand_mod. apply compress_expand_byte.
  pose proof (Z.mod_pos_bound b 256). lia.
Qed.

Lemma length_expand b : length (expand b) = 4%nat.
Proof. reflexivity. Qed.

Lemma length_expand_pixel a b c : length (expand_pixel a b c) = 12%nat.
Proof. reflexivity. Qed.

(** ** Channels and pixels of a buffer *)

Section channels.
Local Open Scope nat_scope.
Implicit Types (buf src : list Z) (off o : nat).

Lemma channel_ext o1 o2 b1 b2 :
  (∀ i, i < 4 → b1 !! (o1 + i) = b2 !! (o2 + i)) → channel b1 o1 = channel b2 o2.
Proof. intros H. unfold channel. f_equal. by apply mv_items_ext. Qed.

Lemma channel_returns buf off :
  off + 4 ≤ length buf → ∃ c, channel buf off = Return c.
Proof.
  intros H. unfold channel.
  pose proof (length_mv_items off 4 buf H) as Hl.
  destruct (mv_items (MView off 4) buf) as [|b1 [|b2 [|b3 [|b4 [|b5 l]]]]];
    try discriminate Hl.
  eexists; reflexivity.
Qed.

Lemma channel_inserts_same b off buf :
  off + 4 ≤ length buf →
  channel (list_inserts off (expand b) buf) off = Return (b `mod` 256)%Z.
Proof.
  intros. unfold channel.
  rewrite <- (length_expand b) at 1. rewrite mv_items_inserts_same by done.
  apply compress_expand.
Qed.

Lemma channel_inserts_disjoint off src buf o :
  off + length src ≤ length buf →
  o + 4 ≤ off ∨ off + length src ≤ o →
  channel (list_inserts off src buf) o = channel buf o.
Proof. intros. unfold channel. by rewrite mv_items_inserts_disjoint. Qed.

Lemma pixel_ext o1 o2 b1 b2 :
  (∀ i, i < 12 → b1 !! (o1 + i) = b2 !! (o2 + i)) → pixel b1 o1 = pixel b2 o2.
Proof.
  intros H. unfold pixel.
  rewrite (channel_ext o1 o2 b1 b2), (channel_ext (o1 + 4) (o2 + 4) b1 b2),
    (channel_ext (o1 + 8) (o2 + 8) b1 b2); [done|..];
    intros i ?; rewrite <- ?Nat.add_assoc; apply H; lia.
Qed.

Lemma pixel_returns buf off :
  off + 12 ≤ length buf → ∃ v, pixel buf off = Return v.
Proof.
  intros. unfold pixel.
  destruct (channel_returns buf off) as [c0 ->]; [lia|].
  destruct (channel_returns buf (off + 4)) as [c1 ->]; [lia|].
  destruct (channel_returns buf (off + 8)) as [c2 ->]; [lia|].
  eexists; reflexivity.
Qed.

Lemma pixel_inserts_same a b c off buf :
  off + 12 ≤ length buf →
  pixel (list_inserts off (expand_pixel a b c) buf) off
  = Return (triple (a `mod` 256) (b `mod` 256) (c `mod` 256))%Z.
Proof.
  intros. unfold pixel.
  assert (∀ k v, k + 4 ≤ 12 → mv_items (MView k 4) (expand_pixel a b c) = expand v →
            channel (list_inserts off (expand_pixel a b c) buf) (off + k)
            = Return (v `mod` 256)%Z) as E.
  { intros k v ? Hk. rewrite <- compress_expand, <- Hk. unfold channel. f_equal.
    apply mv_items_ext; intros i ?.
    rewrite lookup_inserts by (rewrite length_expand_pixel; lia).
    rewrite decide_True by (rewrite length_expand_pixel; lia).
    f_equal; lia. }
  rewrite <- (Nat.add_0_r off) at 2.
  rewrite (E 0 a), (E 4 b), (E 8 c) by (done || lia). done.
Qed.

Lemma pixel_inserts_disjoint off src buf o :
  off + length src ≤ length buf →
  o + 12 ≤ off ∨ off + length src ≤ o →
  pixel (list_inserts off src buf) o = pixel buf o.
Proof.
  intros. apply pixel_ext; intros i ?.
  rewrite lookup_inserts by done. rewrite decide_False by lia. done.
Qed.
End channels.

(** ** Reading and writing through slices of a view *)

Lemma compress_at_inside o L a b buf :
  0 ≤ a → b = a + 4 → b ≤ Z.of_nat L →
  compress_at (MView o L) a b buf = channel buf (o + Z.to_nat a).
Proof.
  intros ? -> ?. unfold compress_at, channel.
  rewrite mv_slice_inside by (simpl; lia). cbn [mv_off mv_len].
  by replace (Z.to_nat (a + 4 - a)) with 4%nat by lia.
Qed.

Lemma expand_byte_inside o L a b v buf :
  0 ≤ a → b = a + 4 → b ≤ Z.of_nat L → (o + L ≤ length buf)%nat →
  _expand_byte (VInt v) (mv_slice (MView o L) (Some a) (Some b)) buf
  = (list_inserts (o + Z.to_nat a) (expand v) buf, Return tt).
Proof.
  intros ? -> ? ?. rewrite mv_slice_inside by (simpl; lia). cbn [mv_off mv_len].
  replace (Z.to_nat (a + 4 - a)) with 4%nat by lia.
  apply expand_byte_run. lia.
Qed.

(** Writing the three channels of a pixel stores its twelve bytes. *)
Lemma expand_pixel_inside o L p a b c buf :
  0 ≤ p → p + 12 ≤ Z.of_nat L → (o + L ≤ length buf)%nat →
  (_expand_byte (VInt a) (mv_slice (MView o L) (Some p) (Some (p + 4))) ;;
   _expand_byte (VInt b) (mv_slice (MView o L) (Some (p + 4)) (Some (p + 8))) ;;
   _expand_byte (VInt c) (mv_slice (MView o L) (Some (p + 8)) (Some (p + 12)))) buf
  = (list_inserts (o + Z.to_nat p) (expand_pixel a b c) buf, Return tt).
Proof.
  intros. unfold bind.
  rewrite expand_byte_inside by lia.
  rewrite expand_byte_inside by (rewrite ?length_inserts; lia).
  rewrite expand_byte_inside by (rewrite ?length_inserts; lia).
  f_equal. apply list_eq; intros j.
  rewrite !lookup_inserts by (rewrite ?length_inserts, ?length_expand, ?length_expand_pixel; lia).
  rewrite !length_expand, length_expand_pixel. unfold expand_pixel.
  repeat case_decide; try lia.
  - rewrite lookup_app_r, lookup_app_r by (rewrite ?length_expand; lia).
    rewrite !length_expand. f_equal; lia.
  - rewrite lookup_app_r, lookup_app_l by (rewrite ?length_expand; lia).
    rewrite !length_expand. f_equal; lia.
  - rewrite lookup_app_l by (rewrite ?length_expand; lia). f_equal; lia.
  - done.
Qed.

(** ** Integer and paired addressing *)

(** Decide the integer comparisons of a guard from the hypotheses. *)
Ltac zbool :=
  rewrite ?Z.geb_leb, ?Z.gtb_ltb;
  repeat match goal with
    | |- context [?a <? ?b] => destruct (Z.ltb_spec a b); try lia
    | |- context [?a <=? ?b] => destruct (Z.leb_spec a b); try lia
    | |- context [?a =? ?b] => destruct (Z.eqb_spec a b); try lia
    end;
  cbn [orb andb negb].

Lemma wf_length self : wf self → Z.of_nat (length (_data self)) = _n self * 12.
Proof. intros [? ->]. lia. Qed.

Lemma method_run {A} self (body : M A) buf r :
  body (_data self) = (buf, r) → method self body = ({| _n := _n self; _data := buf |}, r).
Proof. intros H. unfold method. by rewrite H. Qed.

Lemma getitem_int self i :
  wf self → 0 ≤ i < _n self →
  __getitem__ self (IInt i) = pixel (_data self) (Z.to_nat (i * 12)).
Proof.
  intros Hwf%wf_length ?. unfold __getitem__, data_view, pixel. zbool.
  rewrite !compress_at_inside by lia. cbn [Nat.add].
  by replace (Z.to_nat (i * 12 + 4)) with (Z.to_nat (i * 12) + 4)%nat by lia;
     replace (Z.to_nat (i * 12 + 8)) with (Z.to_nat (i * 12) + 8)%nat by lia.
Qed.

Lemma getitem_pair self i ch :
  wf self → 0 ≤ i < _n self → 0 ≤ ch < 3 →
  __getitem__ self (ITuple [IInt i; IInt ch])
  = try c <- channel (_data self) (Z.to_nat (i * 12 + ch * 4)); Return (VInt c).
Proof.
  intros Hwf%wf_length ??. unfold __getitem__, data_view. zbool.
  by rewrite compress_at_inside by lia.
Qed.

Lemma setitem_int self i a b c :
  wf self → 0 ≤ i < _n self →
  __setitem__ self (IInt i) (triple a b c)
  = ({| _n := _n self;
        _data := list_inserts (Z.to_nat (i * 12)) (expand_pixel a b c) (_data self) |},
     Return tt).
Proof.
  intros Hwf%wf_length ?. unfold __setitem__, data_view, triple. zbool.
  apply method_run. apply (expand_pixel_inside 0); lia.
Qed.

Lemma setitem_pair self i ch v :
  wf self → 0 ≤ i < _n self → 0 ≤ ch < 3 → 0 ≤ v ≤ 255 →
  __setitem__ self (ITuple [IInt i; IInt ch]) (VInt v)
  = ({| _n := _n self;
        _data := list_inserts (Z.to_nat (i * 12 + ch * 4)) (expand v) (_data self) |},
     Return tt).
Proof.
  intros Hwf%wf_length ???. unfold __setitem__, data_view. zbool.
  apply method_run. by rewrite expand_byte_inside by lia.
Qed.

Lemma wf_inserts self off src :
  wf self → wf {| _n := _n self; _data := list_inserts off src (_data self) |}.
Proof. intros [??]. split; simpl; [done|]. by rewrite length_inserts. Qed.

(** ** Loops *)

Lemma comprehension_fmap {A B C} (h : A → B) (f : B → outcome C) xs :
  comprehension (h <$> xs) f = comprehension xs (f ∘ h).
Proof. induction xs as [|x xs IH]; csimpl; [done|]. by rewrite IH. Qed.

Lemma comprehension_ext {A B} (f g : A → outcome B) xs :
  (∀ x, x ∈ xs → f x = g x) → comprehension xs f = comprehension xs g.
Proof.
  induction xs as [|x xs IH]; simpl; intros H; [done|].
  rewrite H by left. rewrite IH; [done|]. intros y ?. apply H. by right.
Qed.

Lemma comprehension_returns {A B} (f : A → outcome B) (g : A → B) xs :
  (∀ x, x ∈ xs → f x = Return (g x)) → comprehension xs f = Return (g <$> xs).
Proof.
  induction xs as [|x xs IH]; simpl; intros H; [done|].
  rewrite H by left. simpl. rewrite IH; [done|]. intros y ?. apply H. by right.
Qed.

Lemma comprehension_total {A B} (f : A → outcome B) xs :
  (∀ x, x ∈ xs → ∃ y, f x = Return y) →
  ∃ ys, comprehension xs f = Return ys ∧ length ys = length xs.
Proof.
  induction xs as [|x xs IH]; simpl; intros H; [by exists []|].
  destruct (H x) as [y ->]; [by left|].
  destruct IH as (ys & -> & ?); [intros; apply H; by right|].
  exists (y :: ys). simpl. auto.
Qed.

Lemma py_range_12 a k :
  py_range (12 * a) (12 * (a + k)) 12 = (fun j => 12 * (a + j))%nat <$> seq 0 k.
Proof.
  unfold py_range.
  replace ((12 * (a + k) - 12 * a + (12 - 1)) / 12)%nat with k.
  - apply list_fmap_ext. intros _ j _. lia.
  - apply (Nat.div_unique _ 12 k 11); lia.
Qed.

Lemma py_range_12_0 k : py_range 0 (12 * k) 12 = (fun j => 12 * j)%nat <$> seq 0 k.
Proof. apply (py_range_12 0 k). Qed.

Lemma for_each_cons {A} (x : A) xs body buf :
  for_each (x :: xs) body buf
  = match body x buf with
    | (buf', Return _) => for_each xs body buf'
    | (buf', Raise e) => (buf', Raise e)
    end.
Proof. reflexivity. Qed.

(** ** Slice addressing *)

Lemma slice_bound_12 n d x :
  0 ≤ n → slice_bound (Z.to_nat (n * 12)) d (Some (x * 12)) = (12 * clamp n x)%nat.
Proof.
  intros. unfold slice_bound, clamp.
  destruct (Z.ltb_spec (x * 12) 0), (Z.ltb_spec x 0); lia.
Qed.

(** The view [data[start*12:stop*12]] begins and ends on pixel boundaries
    inside the buffer, whatever the bounds. *)
Lemma data_slice self s e :
  wf self →
  mv_slice (data_view self) (Some (s * 12)) (Some (e * 12))
  = MView (12 * clamp (_n self) s) (12 * (clamp (_n self) e - clamp (_n self) s)).
Proof.
  intros [? Hl]. unfold mv_slice, data_view. cbn [mv_off mv_len]. rewrite Hl.
  rewrite !slice_bound_12 by lia. f_equal; lia.
Qed.

Lemma clamp_le n x : 0 ≤ n → Z.of_nat (clamp n x) ≤ n.
Proof. intros. unfold clamp. destruct (Z.ltb_spec x 0); lia. Qed.

Lemma clamp_inside n x : 0 ≤ x ≤ n → clamp n x = Z.to_nat x.
Proof. intros. unfold clamp. destruct (Z.ltb_spec x 0); lia. Qed.


Lemma getitem_slice self start stop step s e st :
  wf self → _unpack_slice self start stop step = Return (s, e, st) →
  __getitem__ self (ISlice start stop step)
  = try l <- pixels (_data self) (clamp (_n self) s) (clamp (_n self) e - clamp (_n self) s);
    Return (VList l).
Proof.
  intros Hwf Hu. unfold __getitem__. rewrite Hu. cbn [obind].
  rewrite data_slice by done. cbn [mv_len].
  pose proof (clamp_le (_n self) s). pose proof (clamp_le (_n self) e).
  destruct Hwf as [? Hl].
  set (p := clamp (_n self) s) in *. set (q := clamp (_n self) e) in *.
  destruct (decide (q ≤ p)%nat) as [|Hpq].
  { replace (q - p)%nat with 0%nat by lia. done. }
  rewrite py_range_12_0. unfold pixels. rewrite !comprehension_fmap.
  f_equal. apply comprehension_ext. intros j [_ ?]%elem_of_seq. unfold compose, pixel.
  rewrite !compress_at_inside by lia.
  by replace (12 * p + Z.to_nat (Z.of_nat (12 * j)))%nat with (12 * (p + j))%nat by lia;
     replace (12 * p + Z.to_nat (Z.of_nat (12 * j) + 4))%nat with (12 * (p + j) + 4)%nat by lia;
     replace (12 * p + Z.to_nat (Z.of_nat (12 * j) + 8))%nat with (12 * (p + j) + 8)%nat by lia.
Qed.

Lemma pixels_total buf p k :
  (12 * (p + k) ≤ length buf)%nat →
  ∃ l, pixels buf p k = Return l ∧ length l = k.
Proof.
  intros. unfold pixels.
  destruct (comprehension_total (pixel buf) ((fun j => 12 * (p + j))%nat <$> seq 0 k))
    as (l & ? & Hl).
  - intros x (j & -> & [_ ?]%elem_of_seq)%list_elem_of_fmap. apply pixel_returns. lia.
  - exists l. by rewrite Hl, length_fmap, length_seq.
Qed.

Lemma setitem_slice_empty self start stop step s e st value :
  wf self → _unpack_slice self start stop step = Return (s, e, st) →
  (clamp (_n self) e ≤ clamp (_n self) s)%nat →
  __setitem__ self (ISlice start stop step) value = (self, Return tt).
Proof.
  intros Hwf Hu ?. unfold __setitem__, method, bind, read. rewrite Hu.
  rewrite data_slice by done. cbn [mv_len].
  rewrite decide_True by lia. by destruct self.
Qed.

Lemma inserts_expand_pixel o a b c buf :
  (o + 12 ≤ length buf)%nat →
  list_inserts (o + 8) (expand c)
    (list_inserts (o + 4) (expand b) (list_inserts o (expand a) buf))
  = list_inserts o (expand_pixel a b c) buf.
Proof.
  intros. apply list_eq; intros j.
  rewrite !lookup_inserts by (rewrite ?length_inserts, ?length_expand, ?length_expand_pixel; lia).
  rewrite !length_expand, length_expand_pixel. unfold expand_pixel.
  repeat case_decide; try lia.
  - rewrite lookup_app_r, lookup_app_r by (rewrite ?length_expand; lia).
    rewrite !length_expand. f_equal; lia.
  - rewrite lookup_app_r, lookup_app_l by (rewrite ?length_expand; lia).
    rewrite !length_expand. f_equal; lia.
  - rewrite lookup_app_l by (rewrite ?length_expand; lia). f_equal; lia.
  - done.
Qed.

(** The bytes of a pixel decide what it decodes to. *)
Lemma pixel_of_bytes a b c buf o :
  (∀ t, t < 12 → buf !! (o + t) = expand_pixel a b c !! t)%nat →
  pixel buf o = Return (triple (a `mod` 256) (b `mod` 256) (c `mod` 256)).
Proof.
  intros H. rewrite (pixel_ext o 0 buf (expand_pixel a b c)) by done.
  unfold pixel.
  change (channel (expand_pixel a b c) 0) with (_compress_byte (expand a)).
  change (channel (expand_pixel a b c) (0 + 4)) with (_compress_byte (expand b)).
  change (channel (expand_pixel a b c) (0 + 8)) with (_compress_byte (expand c)).
  by rewrite !compress_expand.
Qed.

(** The tiling loop of a broadcast: every further pixel slot of the view
    receives the twelve bytes of its first slot. *)
Lemma broadcast_loop off k P m :
  length P = 12%nat →
  ∀ a buf,
    (1 + a + m = k)%nat → (off + 12 * k ≤ length buf)%nat →
    (∀ t, t < 12 → buf !! (off + t) = P !! t)%nat →
    ∃ buf',
      for_each ((fun j => 12 * (1 + j))%nat <$> seq a m) (fun i =>
        let i := Z.of_nat i in
        do src <- read (fun buf =>
                    Return (mv_items (mv_slice (MView off (12 * k)) (Some 0) (Some 12)) buf));
        mv_setslice (MView off (12 * k)) (Some i) (Some (i + 12)) src) buf
      = (buf', Return tt)
      ∧ length buf' = length buf
      ∧ ∀ p, buf' !! p
             = if decide (off + 12 * (1 + a) ≤ p < off + 12 * k)%nat
               then P !! ((p - off) `mod` 12)%nat else buf !! p.
Proof.
  intros HP. set (body := fun i : nat => let i := Z.of_nat i in bind _ _).
  induction m as [|m IH]; intros a buf Hk Hlen Hfirst.
  { exists buf. split_and!; [done..|]. intros p. by rewrite decide_False by lia. }
  rewrite <- cons_seq, fmap_cons, for_each_cons.
  unfold body at 1, bind at 1, read at 1.
  rewrite mv_slice_inside by (cbn [mv_len]; lia). cbn [mv_off mv_len].
  assert (mv_items (MView (off + Z.to_nat 0) (Z.to_nat (12 - 0))) buf = P) as ->.
  { apply list_eq; intros t. rewrite lookup_mv_items. change (Z.to_nat (12 - 0)) with 12%nat.
    case_decide.
    - rewrite <- Hfirst by done. f_equal. lia.
    - symmetry. apply lookup_ge_None. lia. }
  unfold mv_setslice. rewrite mv_slice_inside by (cbn [mv_len]; lia).
  cbn [mv_off mv_len]. rewrite decide_True by lia.
  destruct (IH (S a) (list_inserts (off + Z.to_nat (Z.of_nat (12 * (1 + a)))) P buf))
    as (buf' & -> & Hl & Hlk).
  - lia.
  - rewrite length_inserts. lia.
  - intros t ?. rewrite lookup_inserts by lia. rewrite decide_False by lia. auto.
  - exists buf'. split_and!; [done|by rewrite Hl, length_inserts|].
    intros p. rewrite Hlk. rewrite lookup_inserts by lia.
    repeat case_decide; try lia; try done.
    f_equal. rewrite (Nat.mod_unique (p - off) 12 (1 + a) (p - (off + Z.to_nat (Z.of_nat (12 * (1 + a)))))); lia.
Qed.

Lemma setitem_slice_broadcast self start stop step s e st a b c :
  wf self → _unpack_slice self start stop step = Return (s, e, st) →
  (clamp (_n self) s < clamp (_n self) e)%nat →
  ∃ buf',
    __setitem__ self (ISlice start stop step) (triple a b c)
    = ({| _n := _n self; _data := buf' |}, Return tt)
    ∧ length buf' = length (_data self)
    ∧ (∀ j, clamp (_n self) s ≤ j < clamp (_n self) e →
         pixel buf' (12 * j) = Return (triple (a `mod` 256) (b `mod` 256) (c `mod` 256)))%nat
    ∧ (∀ x, x < 12 * clamp (_n self) s ∨ 12 * clamp (_n self) e ≤ x →
         buf' !! x = _data self !! x)%nat.
Proof.
  intros Hwf Hu Hpq.
  pose proof (clamp_le (_n self) e). pose proof (wf_length self Hwf) as HL.
  destruct Hwf as [Hn _].
  unfold __setitem__, triple. unfold bind at 1, read at 1. rewrite Hu.
  rewrite data_slice by (split; [done|lia]). cbn [mv_len].
  set (p := clamp (_n self) s) in *. set (q := clamp (_n self) e) in *.
  rewrite decide_False by lia.
  set (buf := _data self) in *.
  destruct (broadcast_loop (12 * p) (q - p) (expand_pixel a b c) (q - p - 1) eq_refl 0
              (list_inserts (12 * p) (expand_pixel a b c) buf))
    as (buf' & Hloop & Hl & Hlk).
  { lia. }
  { rewrite length_inserts. lia. }
  { intros t ?. rewrite lookup_inserts by (rewrite length_expand_pixel; lia).
    rewrite decide_True by (rewrite length_expand_pixel; lia). f_equal. lia. }
  exists buf'. split_and!.
  - apply method_run. fold buf. unfold bind.
    rewrite expand_byte_inside by lia.
    rewrite expand_byte_inside by (rewrite ?length_inserts; lia).
    rewrite expand_byte_inside by (rewrite ?length_inserts; lia).
    change (Z.to_nat 0) with 0%nat. change (Z.to_nat 4) with 4%nat.
    change (Z.to_nat 8) with 8%nat. rewrite Nat.add_0_r.
    rewrite inserts_expand_pixel by lia.
    replace (py_range 12 (12 * (q - p)) 12)
      with ((fun j => 12 * (1 + j))%nat <$> seq 0 (q - p - 1)).
    + apply Hloop.
    + rewrite <- (py_range_12 1 (q - p - 1)). f_equal. lia.
  - by rewrite Hl, length_inserts.
  - intros j ?. apply pixel_of_bytes. intros t ?. rewrite Hlk.
    rewrite lookup_inserts by (rewrite length_expand_pixel; lia).
    rewrite length_expand_pixel.
    repeat case_decide; try lia.
    + f_equal. symmetry. apply (Nat.mod_unique _ 12 (j - p)); lia.
    + f_equal. lia.
  - intros x ?. rewrite Hlk. rewrite decide_False by lia.
    rewrite lookup_inserts by (rewrite length_expand_pixel; lia).
    by rewrite decide_False by (rewrite length_expand_pixel; lia).
Qed.

(** ** Assigning a list to a slice *)

Lemma expand_byte_no_ValueError v mv buf :
  snd (_expand_byte v mv buf) ≠ Raise ValueError.
Proof.
  destruct v; try (simpl; discriminate).
  unfold _expand_byte, bind, mv_setitem.
  repeat (case_decide; cbn [snd]; try discriminate).
Qed.

Lemma for_each_no_ValueError {A} (xs : list A) body :
  (∀ x buf, snd (body x buf) ≠ Raise ValueError) →
  ∀ buf, snd (for_each xs body buf) ≠ Raise ValueError.
Proof.
  intros Hb. induction xs as [|x xs IH]; intros buf; [simpl; discriminate|].
  rewrite for_each_cons. generalize (Hb x buf).
  destruct (body x buf) as [buf' [[]|e]]; intros Hx; [apply IH|done].
Qed.

Lemma bind_no_ValueError {A B} (m : M A) (f : A → M B) buf :
  snd (m buf) ≠ Raise ValueError →
  (∀ a buf', snd (f a buf') ≠ Raise ValueError) →
  snd (bind m f buf) ≠ Raise ValueError.
Proof.
  intros Hm Hf. unfold bind. revert Hm.
  destruct (m buf) as [buf' [a|e]]; simpl; intros Hm; [apply Hf|].
  intros [= ->]. by apply Hm.
Qed.

Lemma is_3tuple_lookup (value : list pyvalue) i v :
  forallb is_3tuple value = true → value !! i = Some v →
  ∃ v0 v1 v2, v = VTuple [v0; v1; v2].
Proof.
  intros Hall Hv.
  assert (is_3tuple v = true) as H3.
  { eapply (proj1 (forallb_forall _ _) Hall), list_elem_of_In, list_elem_of_lookup_2, Hv. }
  destruct v as [|[|v0 [|v1 [|v2 [|]]]]| |]; try discriminate H3. eauto.
Qed.

Lemma snd_method {A} self (body : M A) : snd (method self body) = snd (body (_data self)).
Proof. unfold method. by destruct (body (_data self)). Qed.

(** No list of 3-tuples is ever refused for its length. *)
Lemma setitem_slice_list_no_ValueError self start stop step value :
  forallb is_3tuple value = true →
  snd (__setitem__ self (ISlice start stop step) (VList value)) ≠ Raise ValueError.
Proof.
  intros Hall. unfold __setitem__. rewrite snd_method. unfold bind at 1, read at 1.
  unfold _unpack_slice. destruct (match step with Some _ => _ | None => _ end);
    [simpl; discriminate|].
  case_decide; [simpl; discriminate|]. rewrite Hall.
  apply for_each_no_ValueError. intros i buf.
  destruct (value !! (i / 3)%nat) as [v|] eqn:Hv; [|simpl; discriminate].
  destruct (is_3tuple_lookup value _ v Hall Hv) as (v0 & v1 & v2 & ->).
  repeat (apply bind_no_ValueError; [apply expand_byte_no_ValueError|intros _ ?]).
  apply expand_byte_no_ValueError.
Qed.

Lemma triples_3tuple vs : forallb is_3tuple (triples vs) = true.
Proof. induction vs as [|[[a b] c] vs IH]; [done|]. simpl. exact IH. Qed.

Lemma lookup_triples vs i :
  triples vs !! i = (fun v => let '(a, b, c) := v in triple a b c) <$> vs !! i.
Proof. apply list_lookup_fmap. Qed.

(** The list loop reads [value[i//3]] for [i = 0, 12, 24, ...]: element
    [4 * j] for pixel [j].  It stops with IndexError at the first pixel whose
    element lies past the end of the list. *)
Lemma list_loop_short off k vs m :
  ∀ a buf,
    (a + m = k)%nat → (1 ≤ m)%nat → (length vs ≤ 4 * (k - 1))%nat →
    (off + 12 * k ≤ length buf)%nat →
    snd (for_each ((fun j => 12 * j)%nat <$> seq a m) (fun i =>
           match triples vs !! (i / 3)%nat with
           | None => raise IndexError
           | Some (VTuple [v0; v1; v2]) =>
               let i := Z.of_nat i in
               _expand_byte v0 (mv_slice (MView off (12 * k)) (Some (i + 0)) (Some (i + 4))) ;;
               _expand_byte v1 (mv_slice (MView off (12 * k)) (Some (i + 4)) (Some (i + 8))) ;;
               _expand_byte v2 (mv_slice (MView off (12 * k)) (Some (i + 8)) (Some (i + 12)))
           | Some _ => raise ValueError
           end) buf)
    = Raise IndexError.
Proof.
  set (body := fun i : nat => match _ with None => _ | Some _ => _ end).
  induction m as [|m IH]; intros a buf Hk Hm Hvs Hlen; [lia|].
  rewrite <- cons_seq, fmap_cons, for_each_cons. unfold body at 1.
  replace (12 * a / 3)%nat with (4 * a)%nat
    by (apply (Nat.div_unique _ 3 _ 0); lia).
  rewrite lookup_triples.
  destruct (vs !! (4 * a)%nat) as [[[x y] z]|] eqn:Hv; [|done].
  apply lookup_lt_Some in Hv. cbn [fmap option_fmap option_map triple].
  unfold bind.
  rewrite expand_byte_inside by lia.
  rewrite expand_byte_inside by (rewrite ?length_inserts; lia).
  rewrite expand_byte_inside by (rewrite ?length_inserts; lia).
  apply IH; rewrite ?length_inserts; lia.
Qed.

Lemma setitem_slice_list_short self start stop step s e st vs :
  wf self → _unpack_slice self start stop step = Return (s, e, st) →
  (clamp (_n self) s < clamp (_n self) e)%nat →
  (length vs ≤ 4 * (clamp (_n self) e - clamp (_n self) s - 1))%nat →
  snd (__setitem__ self (ISlice start stop step) (VList (triples vs))) = Raise IndexError.
Proof.
  intros Hwf Hu Hpq Hvs.
  pose proof (clamp_le (_n self) e). pose proof (wf_length self Hwf) as HL.
  unfold __setitem__. rewrite snd_method. unfold bind at 1, read at 1. rewrite Hu.
  rewrite data_slice by done. cbn [mv_len].
  destruct Hwf as [Hn _].
  set (p := clamp (_n self) s) in *. set (q := clamp (_n self) e) in *.
  rewrite decide_False by lia. rewrite triples_3tuple, py_range_12_0.
  apply list_loop_short; lia.
Qed.

(** ** Rotation *)

Lemma rotate_multiple self count :
  wf self → count `mod` _n self = 0 → rotate self count = (self, Raise ValueError).
Proof.
  intros Hwf Hc. pose proof (wf_length self Hwf) as HL. destruct Hwf as [Hn _].
  unfold rotate. destruct (Z.eqb_spec (_n self) 0) as [|_]; [lia|].
  rewrite Hc. change (0 * 12) with 0. change (- 0) with 0.
  unfold method, bind, read, mv_setslice, data_view, mv_slice, slice_bound.
  cbn [mv_len mv_off Z.ltb Z.compare]. rewrite Z.min_l by lia.
  change (Z.to_nat 0) with 0%nat. rewrite decide_False; [by destruct self|].
  unfold mv_items. cbn [mv_len mv_off]. rewrite length_take, length_drop. lia.
Qed.

Lemma rotate_shift self count :
  wf self → count `mod` _n self ≠ 0 →
  ∃ buf',
    rotate self count = ({| _n := _n self; _data := buf' |}, Return tt)
    ∧ length buf' = length (_data self)
    ∧ ∀ p, (p < length buf')%nat →
        buf' !! p
        = if decide (p < Z.to_nat (count `mod` _n self * 12))%nat
          then _data self !! (length (_data self) - Z.to_nat (count `mod` _n self * 12) + p)%nat
          else _data self !! (p - Z.to_nat (count `mod` _n self * 12))%nat.
Proof.
  intros Hwf Hc. pose proof (wf_length self Hwf) as HL. destruct Hwf as [Hn _].
  pose proof (Z.mod_pos_bound count (_n self) Hn) as Hk.
  set (k := count `mod` _n self) in *. set (buf := _data self) in *.
  set (tail := mv_items (MView (length buf - Z.to_nat (k * 12)) (Z.to_nat (k * 12))) buf).
  set (head := mv_items (MView 0 (length buf - Z.to_nat (k * 12))) buf).
  assert (length tail = Z.to_nat (k * 12)) as Htail
    by (unfold tail; rewrite length_mv_items; lia).
  assert (length head = (length buf - Z.to_nat (k * 12))%nat) as Hhead
    by (unfold head; rewrite length_mv_items; lia).
  exists (list_inserts 0 tail (list_inserts (Z.to_nat (k * 12)) head buf)).
  split_and!.
  - unfold rotate. zbool. apply method_run. fold k buf.
    unfold bind, read, mv_setslice, data_view, mv_slice, slice_bound.
    fold buf. cbn [mv_len mv_off]. zbool.
    replace (Z.to_nat (Z.max 0 (- (k * 12) + Z.of_nat (length buf))))
      with (length buf - Z.to_nat (k * 12))%nat by lia.
    replace (Z.to_nat (Z.min (k * 12) (Z.of_nat (length buf)))) with (Z.to_nat (k * 12)) by lia.
    replace (length buf - (length buf - Z.to_nat (k * 12)))%nat with (Z.to_nat (k * 12)) by lia.
    rewrite !Nat.sub_0_r. cbn [Nat.add]. fold tail head.
    rewrite decide_True by lia. rewrite decide_True by lia. done.
  - by rewrite !length_inserts.
  - intros p Hp. rewrite !length_inserts in Hp.
    rewrite !lookup_inserts by (rewrite ?length_inserts; lia).
    rewrite Htail, Hhead. unfold tail, head. rewrite !lookup_mv_items.
    repeat case_decide; try lia; f_equal; lia.
Qed.

(** Where [rotate] sends a pixel. *)
Lemma rotate_pixel self count buf' i :
  wf self → count `mod` _n self ≠ 0 → 0 ≤ i < _n self →
  length buf' = length (_data self) →
  (∀ p, (p < length buf')%nat →
     buf' !! p
     = if decide (p < Z.to_nat (count `mod` _n self * 12))%nat
       then _data self !! (length (_data self) - Z.to_nat (count `mod` _n self * 12) + p)%nat
       else _data self !! (p - Z.to_nat (count `mod` _n self * 12))%nat) →
  pixel buf' (Z.to_nat ((i + count) `mod` _n self * 12))
  = pixel (_data self) (Z.to_nat (i * 12)).
Proof.
  intros Hwf Hc Hi Hl Hlk. pose proof (wf_length self Hwf) as HL. destruct Hwf as [Hn _].
  pose proof (Z.mod_pos_bound count (_n self) Hn) as Hk.
  rewrite <- Zplus_mod_idemp_r.
  set (k := count `mod` _n self) in *.
  assert ((i + k) `mod` _n self = if decide (i + k < _n self) then i + k else i + k - _n self)
    as ->.
  { case_decide; [apply Z.mod_small; lia|].
    symmetry. apply (Z.mod_unique_pos _ _ 1); lia. }
  apply pixel_ext. intros t ?. rewrite Hlk by (case_decide; lia).
  repeat case_decide; try lia; f_equal; lia.
Qed.

(** ** Negative indices *)

(** A slice of the whole buffer with two negative bounds is the slice with
    both bounds moved up by the buffer length. *)
Lemma data_slice_wrap self a b a' b' :
  wf self → a < 0 → b < 0 →
  a' = a + _n self * 12 → b' = b + _n self * 12 → 0 ≤ a' → 0 ≤ b' →
  mv_slice (data_view self) (Some a) (Some b) = mv_slice (data_view self) (Some a') (Some b').
Proof.
  intros Hwf%wf_length ?? -> -> ??. unfold mv_slice, data_view, slice_bound.
  cbn [mv_len mv_off]. zbool; f_equal; lia.
Qed.

(** A negative start with stop [0] selects nothing. *)
Lemma data_slice_to_zero self a :
  a < 0 → mv_len (mv_slice (data_view self) (Some a) (Some 0)) = 0%nat.
Proof.
  intros. unfold mv_slice, data_view, slice_bound. cbn [mv_len mv_off]. zbool; lia.
Qed.

Lemma compress_at_to_zero self a buf :
  a < 0 → compress_at (data_view self) a 0 buf = Raise ValueError.
Proof.
  intros Ha. unfold compress_at, mv_items.
  by rewrite (data_slice_to_zero self a Ha).
Qed.

Lemma expand_byte_empty v mv buf :
  mv_len mv = 0%nat → _expand_byte (VInt v) mv buf = (buf, Raise IndexError).
Proof.
  intros Hl. unfold _expand_byte, bind, mv_setitem. rewrite Hl.
  by rewrite decide_False by lia.
Qed.

Lemma getitem_negative self j :
  wf self → 2 ≤ j ≤ _n self →
  __getitem__ self (IInt (- j)) = __getitem__ self (IInt (_n self - j)).
Proof.
  intros Hwf ?. unfold __getitem__, compress_at. zbool.
  rewrite (data_slice_wrap self (- j * 12) (- j * 12 + 4)
             ((_n self - j) * 12) ((_n self - j) * 12 + 4)) by (done || lia).
  rewrite (data_slice_wrap self (- j * 12 + 4) (- j * 12 + 8)
             ((_n self - j) * 12 + 4) ((_n self - j) * 12 + 8)) by (done || lia).
  rewrite (data_slice_wrap self (- j * 12 + 8) (- j * 12 + 12)
             ((_n self - j) * 12 + 8) ((_n self - j) * 12 + 12)) by (done || lia).
  done.
Qed.

Lemma setitem_negative self j value :
  wf self → 2 ≤ j ≤ _n self →
  __setitem__ self (IInt (- j)) value = __setitem__ self (IInt (_n self - j)) value.
Proof.
  intros Hwf ?. unfold __setitem__. zbool.
  rewrite (data_slice_wrap self (- j * 12) (- j * 12 + 4)
             ((_n self - j) * 12) ((_n self - j) * 12 + 4)) by (done || lia).
  rewrite (data_slice_wrap self (- j * 12 + 4) (- j * 12 + 8)
             ((_n self - j) * 12 + 4) ((_n self - j) * 12 + 8)) by (done || lia).
  rewrite (data_slice_wrap self (- j * 12 + 8) (- j * 12 + 12)
             ((_n self - j) * 12 + 8) ((_n self - j) * 12 + 12)) by (done || lia).
  done.
Qed.

Lemma getitem_pair_negative self j ch :
  wf self → 1 ≤ j ≤ _n self → 2 ≤ j ∨ ch ≠ 2 →
  __getitem__ self (ITuple [IInt (- j); IInt ch])
  = __getitem__ self (ITuple [IInt (_n self - j); IInt ch]).
Proof.
  intros Hwf ??. unfold __getitem__, compress_at. zbool; try done.
  by rewrite (data_slice_wrap self (- j * 12 + ch * 4) (- j * 12 + ch * 4 + 4)
                ((_n self - j) * 12 + ch * 4) ((_n self - j) * 12 + ch * 4 + 4))
    by (done || lia).
Qed.

Lemma setitem_pair_negative self j ch value :
  wf self → 1 ≤ j ≤ _n self → 2 ≤ j ∨ ch ≠ 2 →
  __setitem__ self (ITuple [IInt (- j); IInt ch]) value
  = __setitem__ self (ITuple [IInt (_n self - j); IInt ch]) value.
Proof.
  intros Hwf ??. unfold __setitem__. zbool; try done.
  by rewrite (data_slice_wrap self (- j * 12 + ch * 4) (- j * 12 + ch * 4 + 4)
                ((_n self - j) * 12 + ch * 4) ((_n self - j) * 12 + ch * 4 + 4))
    by (done || lia).
Qed.

(** Index [-1]: the last channel is addressed as [data[-4:0]], which is
    empty. *)
Lemma getitem_minus_one self :
  wf self → __getitem__ self (IInt (-1)) = Raise ValueError.
Proof.
  intros Hwf. pose proof (wf_length self Hwf) as HL.
  unfold __getitem__. zbool; [destruct Hwf; lia|].
  change (-1 * 12 + 12) with 0. change (-1 * 12 + 8) with (-4).
  change (-1 * 12 + 4) with (-8). change (-1 * 12) with (-12).
  rewrite compress_at_to_zero by lia.
  unfold compress_at at 1 2.
  rewrite (data_slice_wrap self (-12) (-8) (_n self * 12 - 12) (_n self * 12 - 8))
    by (done || destruct Hwf; lia).
  rewrite (data_slice_wrap self (-8) (-4) (_n self * 12 - 8) (_n self * 12 - 4))
    by (done || destruct Hwf; lia).
  fold (compress_at (data_view self) (_n self * 12 - 12) (_n self * 12 - 8) (_data self)).
  fold (compress_at (data_view self) (_n self * 12 - 8) (_n self * 12 - 4) (_data self)).
  unfold data_view. destruct Hwf as [? _].
  rewrite !compress_at_inside by lia.
  destruct (channel_returns (_data self) (0 + Z.to_nat (_n self * 12 - 12))) as [c0 ->]; [lia|].
  destruct (channel_returns (_data self) (0 + Z.to_nat (_n self * 12 - 8))) as [c1 ->]; [lia|].
  done.
Qed.

Lemma getitem_pair_minus_one self :
  wf self → __getitem__ self (ITuple [IInt (-1); IInt 2]) = Raise ValueError.
Proof.
  intros [? _]. unfold __getitem__. zbool.
  change (-1 * 12 + 2 * 4 + 4) with 0. by rewrite compress_at_to_zero.
Qed.

Lemma setitem_minus_one self a b c :
  wf self → snd (__setitem__ self (IInt (-1)) (triple a b c)) = Raise IndexError.
Proof.
  intros Hwf. pose proof (wf_length self Hwf) as HL.
  unfold __setitem__, triple. rewrite snd_method. zbool; [destruct Hwf; lia|].
  change (-1 * 12 + 12) with 0. change (-1 * 12 + 8) with (-4).
  change (-1 * 12 + 4) with (-8). change (-1 * 12) with (-12).
  rewrite (data_slice_wrap self (-12) (-8) (_n self * 12 - 12) (_n self * 12 - 8))
    by (done || destruct Hwf; lia).
  rewrite (data_slice_wrap self (-8) (-4) (_n self * 12 - 8) (_n self * 12 - 4))
    by (done || destruct Hwf; lia).
  unfold bind, data_view at 1 2. destruct Hwf as [? _].
  rewrite expand_byte_inside by lia.
  rewrite expand_byte_inside by (rewrite ?length_inserts; lia).
  by rewrite expand_byte_empty by (by apply data_slice_to_zero).
Qed.

Lemma setitem_pair_minus_one self v :
  wf self → 0 ≤ v ≤ 255 →
  __setitem__ self (ITuple [IInt (-1); IInt 2]) (VInt v) = (self, Raise IndexError).
Proof.
  intros [? _] ?. unfold __setitem__. zbool.
  change (-1 * 12 + 2 * 4 + 4) with 0.
  unfold method. rewrite expand_byte_empty by (by apply data_slice_to_zero).
  by destruct self.
Qed.

(** ** Reading back what was stored *)

Lemma pixels_replicate buf p k t :
  (∀ j, j < k → pixel buf (12 * (p + j)) = Return t)%nat →
  pixels buf p k = Return (replicate k t).
Proof.
  intros H. unfold pixels.
  rewrite (comprehension_returns _ (fun _ => t)).
  - f_equal. rewrite (const_fmap _ _ t) by done. by rewrite length_fmap, length_seq.
  - intros x (j & -> & [_ ?]%elem_of_seq)%list_elem_of_fmap. apply H. lia.
Qed.

Lemma mod_byte v : 0 ≤ v ≤ 255 → v `mod` 256 = v.
Proof. intros. apply Z.mod_small. lia. Qed.

(** Broadcasting any integer triple to an in-bounds slice and reading the
    slice back. *)
Lemma broadcast_then_get self start stop step s e st a b c :
  wf self → _unpack_slice self start stop step = Return (s, e, st) →
  0 ≤ s ≤ _n self → 0 ≤ e ≤ _n self →
  ∃ self',
    __setitem__ self (ISlice start stop step) (triple a b c) = (self', Return tt)
    ∧ wf self' ∧ _n self' = _n self
    ∧ __getitem__ self' (ISlice start stop step)
      = Return (VList (replicate (Z.to_nat (e - s))
                         (triple (a `mod` 256) (b `mod` 256) (c `mod` 256))))
    ∧ (e ≤ s → self' = self).
Proof.
  intros Hwf Hu Hs He.
  destruct (decide (e ≤ s)) as [Hes|Hes].
  - exists self. split_and!; try done.
    + eapply setitem_slice_empty; [done..|]. rewrite !clamp_inside by lia. lia.
    + rewrite (getitem_slice self _ _ _ s e st) by done.
      rewrite !clamp_inside by lia.
      replace (Z.to_nat e - Z.to_nat s)%nat with 0%nat by lia.
      by replace (Z.to_nat (e - s)) with 0%nat by lia.
  - destruct (setitem_slice_broadcast self start stop step s e st a b c)
      as (buf' & Hset & Hl & Hpx & _); [done..| |].
    { rewrite !clamp_inside by lia. lia. }
    exists {| _n := _n self; _data := buf' |}.
    assert (wf {| _n := _n self; _data := buf' |}) as Hwf'.
    { destruct Hwf. split; simpl; [done|congruence]. }
    split_and!; try done; try lia.
    rewrite (getitem_slice _ _ _ _ s e st) by done. cbn [_n _data].
    rewrite !clamp_inside in * by lia.
    rewrite (pixels_replicate _ _ _ (triple (a `mod` 256) (b `mod` 256) (c `mod` 256))).
    + cbn [obind]. do 3 f_equal. lia.
    + intros j ?. apply Hpx. lia.
Qed.

(** Storing any integer triple at a pixel and reading the pixel back. *)
Lemma set_then_get self i a b c :
  wf self → 0 ≤ i < _n self →
  ∃ self',
    __setitem__ self (IInt i) (triple a b c) = (self', Return tt)
    ∧ __getitem__ self' (IInt i)
      = Return (triple (a `mod` 256) (b `mod` 256) (c `mod` 256)).
Proof.
  intros Hwf Hi. pose proof (wf_length self Hwf).
  eexists. split; [by apply setitem_int|].
  rewrite getitem_int by (by try apply wf_inserts).
  apply pixel_inserts_same. lia.
Qed.

(** Assigning a one-element list to a one-pixel slice. *)
Lemma list_single_then_get self start stop step s e st a b c :
  wf self → _unpack_slice self start stop step = Return (s, e, st) →
  0 ≤ s → e = s + 1 → e ≤ _n self →
  ∃ self',
    __setitem__ self (ISlice start stop step) (VList [triple a b c]) = (self', Return tt)
    ∧ __getitem__ self' (ISlice start stop step)
      = Return (VList [triple (a `mod` 256) (b `mod` 256) (c `mod` 256)]).
Proof.
  intros Hwf Hu Hs -> He. pose proof (wf_length self Hwf) as HL.
  exists {| _n := _n self;
            _data := list_inserts (Z.to_nat (s * 12)) (expand_pixel a b c) (_data self) |}.
  split.
  - unfold __setitem__. apply method_run. unfold bind at 1, read at 1. rewrite Hu.
    rewrite data_slice by done. cbn [mv_len].
    rewrite !clamp_inside by lia.
    replace (Z.to_nat (s + 1) - Z.to_nat s)%nat with 1%nat by lia.
    rewrite decide_False by lia. cbn [forallb is_3tuple triple andb].
    rewrite (py_range_12_0 1). cbn [seq fmap list_fmap for_each].
    change (12 * 0 / 3)%nat with 0%nat. cbn [lookup list_lookup].
    unfold triple, bind, ret. change (Z.of_nat (12 * 0)) with 0.
    rewrite expand_byte_inside by (cbn; lia).
    rewrite expand_byte_inside by (rewrite ?length_inserts; cbn; lia).
    rewrite expand_byte_inside by (rewrite ?length_inserts; cbn; lia).
    change (Z.to_nat (0 + 0)) with 0%nat. change (Z.to_nat (0 + 4)) with 4%nat.
    change (Z.to_nat (0 + 8)) with 8%nat. rewrite Nat.add_0_r.
    rewrite inserts_expand_pixel by lia. do 2 f_equal. lia.
  - rewrite (getitem_slice _ _ _ _ s (s + 1) st) by (done || by apply wf_inserts).
    cbn [_n _data]. rewrite !clamp_inside by lia.
    replace (Z.to_nat (s + 1) - Z.to_nat s)%nat with 1%nat by lia.
    rewrite (pixels_replicate _ _ 1 (triple (a `mod` 256) (b `mod` 256) (c `mod` 256))); [done|].
    intros j ?. replace (12 * (Z.to_nat s + j))%nat with (Z.to_nat (s * 12)) by lia.
    apply pixel_inserts_same. lia.
Qed.

(** ** Slices, element by element *)

Lemma comprehension_lookup {A B} (f : A → outcome B) xs ys :
  comprehension xs f = Return ys →
  ∀ j x, xs !! j = Some x → ∃ y, ys !! j = Some y ∧ f x = Return y.
Proof.
  revert ys. induction xs as [|x0 xs IH]; intros ys H j x Hj; [done|].
  simpl in H. destruct (f x0) as [y0|] eqn:Hy0; [|discriminate H]. simpl in H.
  destruct (comprehension xs f) as [ys'|] eqn:Hys; [|discriminate H].
  injection H as <-. destruct j as [|j].
  - injection Hj as <-. by exists y0.
  - by apply (IH ys' eq_refl j x).
Qed.

Lemma bind_read_return {A B} (x : A) (K : A → M B) buf :
  bind (read (fun _ => Return x)) K buf = K x buf.
Proof. reflexivity. Qed.

(** What a slice does depends on its bounds only through the pixel
    positions the memoryview clamps them to. *)
Lemma slice_by_clamp self start stop step start' stop' step' s e st s' e' st' :
  wf self →
  _unpack_slice self start stop step = Return (s, e, st) →
  _unpack_slice self start' stop' step' = Return (s', e', st') →
  clamp (_n self) s = clamp (_n self) s' → clamp (_n self) e = clamp (_n self) e' →
  __getitem__ self (ISlice start stop step) = __getitem__ self (ISlice start' stop' step')
  ∧ ∀ value,
      __setitem__ self (ISlice start stop step) value
      = __setitem__ self (ISlice start' stop' step') value.
Proof.
  intros Hwf Hu Hu' Hs He. split.
  - rewrite (getitem_slice self start stop step s e st) by done.
    rewrite (getitem_slice self start' stop' step' s' e' st') by done.
    by rewrite Hs, He.
  - intros value. unfold __setitem__, method. rewrite Hu, Hu', !bind_read_return.
    rewrite !data_slice by done. by rewrite Hs, He.
Qed.

(** * The claims *)

(** C1: for every integer [v] with [0 <= v <= 255], the four bytes that
    [_expand_byte] writes for [v] through a 4-byte memoryview are compressed
    back to [v] by [_compress_byte]. *)
Theorem compress_expand_roundtrip (v : Z) (mv : memoryview) (buf : list Z) :
  0 ≤ v ≤ 255 → mv_len mv = 4%nat → (mv_off mv + 4 ≤ length buf)%nat →
  ∃ buf',
    _expand_byte (VInt v) mv buf = (buf', Return tt)
    ∧ _compress_byte (mv_items mv buf') = Return v.
Proof.
  intros Hv Hl Hb. destruct mv as [off len]. simpl in Hl, Hb. subst len.
  exists (list_inserts off (expand v) buf). split.
  - by apply expand_byte_run.
  - rewrite <- (mod_byte v Hv) at 2. by apply channel_inserts_same.
Qed.

Lemma compress_expand_roundtrip_witness :
  0 ≤ 27 ≤ 255 ∧
  ∃ buf',
    _expand_byte (VInt 27) (MView 0 4) [0; 0; 0; 0] = (buf', Return tt)
    ∧ _compress_byte (mv_items (MView 0 4) buf') = Return 27.
Proof.
  split; [lia|].
  apply (compress_expand_roundtrip 27 (MView 0 4) [0; 0; 0; 0]);
    [lia | reflexivity | simpl; lia].
Defined.

(** C2 (the code departs from the claim): [rotate(0)] and
    [rotate(pixel_count)] do leave the buffer contents unchanged, but neither
    completes: the byte count is [0], [self._data[-0:]] is the whole buffer
    and [self._data[:-0]] is empty, and assigning the empty head to
    [self._data[0:]] raises ValueError. *)
Theorem rotate_by_multiple_raises (self : NeoPixel) :
  wf self →
  rotate self 0 = (self, Raise ValueError)
  ∧ rotate self (_n self) = (self, Raise ValueError).
Proof.
  intros Hwf. split.
  - apply rotate_multiple; [done|]. apply Z.mod_0_l. destruct Hwf. lia.
  - apply rotate_multiple; [done|]. apply Z_mod_same_full.
Qed.

Lemma rotate_by_multiple_raises_witness :
  wf (strip 1)
  ∧ rotate (strip 1) 0 = (strip 1, Raise ValueError)
  ∧ rotate (strip 1) (_n (strip 1)) = (strip 1, Raise ValueError).
Proof.
  split; [split; reflexivity|].
  apply (rotate_by_multiple_raises (strip 1)). split; reflexivity.
Defined.

(** C3 (the code departs from the claim): [rotate(count)] moves the triple
    of pixel [i] to pixel [(i + count) mod pixel_count] for every [count],
    positive, negative or larger than [pixel_count], that is not a multiple
    of [pixel_count]; for a multiple of [pixel_count], zero included, it
    raises ValueError instead. *)
Theorem rotate_moves_pixels (self : NeoPixel) (count i : Z) :
  wf self → 0 ≤ i < _n self →
  (count `mod` _n self ≠ 0 →
     ∃ self',
       rotate self count = (self', Return tt)
       ∧ wf self'
       ∧ __getitem__ self' (IInt ((i + count) `mod` _n self)) = __getitem__ self (IInt i))
  ∧ (count `mod` _n self = 0 → rotate self count = (self, Raise ValueError)).
Proof.
  intros Hwf Hi. split; [|by apply rotate_multiple].
  intros Hc. destruct (rotate_shift self count Hwf Hc) as (buf' & Hr & Hl & Hlk).
  assert (wf {| _n := _n self; _data := buf' |}) as Hwf'.
  { destruct Hwf. split; simpl; [done|congruence]. }
  exists {| _n := _n self; _data := buf' |}. split_and!; [done..|].
  rewrite !getitem_int; try done.
  - cbn [_n _data]. by apply (rotate_pixel self count buf' i).
  - cbn [_n]. apply Z.mod_pos_bound. lia.
Qed.

Lemma rotate_moves_pixels_witness :
  wf rainbow ∧ 0 ≤ 3 < _n rainbow ∧
  ((-5) `mod` _n rainbow ≠ 0 →
     ∃ self',
       rotate rainbow (-5) = (self', Return tt)
       ∧ wf self'
       ∧ __getitem__ self' (IInt ((3 + -5) `mod` _n rainbow))
         = __getitem__ rainbow (IInt 3))
  ∧ ((-5) `mod` _n rainbow = 0 → rotate rainbow (-5) = (rainbow, Raise ValueError)).
Proof.
  split; [split; reflexivity|]. split; [split; [lia|reflexivity]|].
  apply (rotate_moves_pixels rainbow (-5) 3); split; (reflexivity || lia).
Defined.

(** C4 (the code departs from the claim): index [-j] behaves as index
    [pixel_count - j] in the single-index and paired get and set for
    [2 <= j <= pixel_count], and in the paired forms also for [j = 1] with
    channel 0 or 1.  For [j = 1] the last channel is sliced as [data[-4:0]],
    which is empty: [get(-1)] and [get(-1, 2)] raise ValueError and
    [set(-1, triple)] and [set(-1, 2, v)] raise IndexError, while index
    [pixel_count - 1] succeeds. *)
Theorem negative_index (self : NeoPixel) (j : Z) :
  wf self → 1 ≤ j ≤ _n self →
  (2 ≤ j →
     __getitem__ self (IInt (- j)) = __getitem__ self (IInt (_n self - j))
     ∧ ∀ value,
         __setitem__ self (IInt (- j)) value = __setitem__ self (IInt (_n self - j)) value)
  ∧ (∀ ch, 2 ≤ j ∨ ch ≠ 2 →
       __getitem__ self (ITuple [IInt (- j); IInt ch])
       = __getitem__ self (ITuple [IInt (_n self - j); IInt ch])
       ∧ ∀ value,
           __setitem__ self (ITuple [IInt (- j); IInt ch]) value
           = __setitem__ self (ITuple [IInt (_n self - j); IInt ch]) value)
  ∧ (j = 1 →
       __getitem__ self (IInt (- j)) = Raise ValueError
       ∧ (∃ v, __getitem__ self (IInt (_n self - j)) = Return v)
       ∧ __getitem__ self (ITuple [IInt (- j); IInt 2]) = Raise ValueError
       ∧ (∃ c, __getitem__ self (ITuple [IInt (_n self - j); IInt 2]) = Return (VInt c))
       ∧ ∀ a b c,
           snd (__setitem__ self (IInt (- j)) (triple a b c)) = Raise IndexError
           ∧ snd (__setitem__ self (IInt (_n self - j)) (triple a b c)) = Return tt
           ∧ (0 ≤ c ≤ 255 →
              snd (__setitem__ self (ITuple [IInt (- j); IInt 2]) (VInt c)) = Raise IndexError
              ∧ snd (__setitem__ self (ITuple [IInt (_n self - j); IInt 2]) (VInt c))
                = Return tt)).
Proof.
  intros Hwf Hj. pose proof (wf_length self Hwf) as HL. split_and!.
  - intros ?. split; [apply getitem_negative; [done|lia]|].
    intros value. apply setitem_negative; [done|lia].
  - intros ch ?. split; [by apply getitem_pair_negative|].
    intros value. by apply setitem_pair_negative.
  - intros ->. change (- 1) with (-1). split_and!.
    + by apply getitem_minus_one.
    + rewrite getitem_int by (done || lia). apply pixel_returns. lia.
    + by apply getitem_pair_minus_one.
    + rewrite getitem_pair by (done || lia).
      destruct (channel_returns (_data self) (Z.to_nat ((_n self - 1) * 12 + 2 * 4)))
        as [c ->]; [lia|]. by exists c.
    + intros a b c. split_and!.
      * by apply setitem_minus_one.
      * by rewrite setitem_int by (done || lia).
      * intros ?. split.
        -- by rewrite setitem_pair_minus_one.
        -- by rewrite setitem_pair by (done || lia).
Qed.

Lemma negative_index_witness :
  wf (strip 2) ∧ 1 ≤ 1 ≤ _n (strip 2) ∧
  __getitem__ (strip 2) (IInt (- 1)) = Raise ValueError
  ∧ (∃ v, __getitem__ (strip 2) (IInt (_n (strip 2) - 1)) = Return v).
Proof.
  split; [split; reflexivity|]. split; [split; [lia|by vm_compute]|].
  destruct (negative_index (strip 2) 1) as (_ & _ & H).
  - split; reflexivity.
  - split; [lia|by vm_compute].
  - destruct (H eq_refl) as (H1 & H2 & _). exact (conj H1 H2).
Defined.

(** C5 (the code departs from the claim): the list loop reads
    [value[i//3]] with [i = 0, 12, 24, ...], element [4 * j] for pixel [j]
    instead of element [j].  For an in-bounds slice of [k >= 2] pixels and
    any list of exactly [k] triples the assignment therefore does not
    succeed: it raises IndexError. *)
Theorem list_assignment_same_length_raises
    (self : NeoPixel) (start stop step : option Z) (s e st : Z) (vs : list (Z * Z * Z)) :
  wf self → _unpack_slice self start stop step = Return (s, e, st) →
  0 ≤ s → e ≤ _n self → 2 ≤ e - s →
  length vs = Z.to_nat (e - s) →
  snd (__setitem__ self (ISlice start stop step) (VList (triples vs))) = Raise IndexError.
Proof.
  intros Hwf Hu Hs He Hk Hvs. pose proof (wf_length self Hwf).
  apply (setitem_slice_list_short self start stop step s e st); try done;
    rewrite !clamp_inside by lia; lia.
Qed.

Lemma list_assignment_same_length_raises_witness :
  wf (strip 2) ∧
  snd (__setitem__ (strip 2) (ISlice (Some 0) (Some 2) None)
         (VList (triples [(1, 2, 3); (4, 5, 6)]))) = Raise IndexError.
Proof.
  split; [split; reflexivity|].
  apply (list_assignment_same_length_raises (strip 2) (Some 0) (Some 2) None 0 2 1
           [(1, 2, 3); (4, 5, 6)]);
    [split; reflexivity | reflexivity | lia | by vm_compute | lia | reflexivity].
Defined.

(** C6, as stated, fails: five triples assigned to a two-pixel slice raise
    nothing although the lengths differ, and the one-triple list of the
    spec's example raises IndexError, not the ShapeMismatch ValueError. *)
Lemma list_assignment_length_counterexample :
  ¬ (snd (__setitem__ (strip 2) (ISlice (Some 0) (Some 2) None)
            (VList (triples [(1, 1, 1); (2, 2, 2); (3, 3, 3); (4, 4, 4); (5, 5, 5)])))
     = Raise ValueError
     ↔ length [(1, 1, 1); (2, 2, 2); (3, 3, 3); (4, 4, 4); (5, 5, 5)] ≠ 2%nat)
  ∧ snd (__setitem__ (strip 2) (ISlice (Some 0) (Some 2) None)
           (VList (triples [(1, 1, 1)]))) ≠ Raise ValueError.
Proof.
  split.
  - intros [_ H]. assert (length [(1, 1, 1); (2, 2, 2); (3, 3, 3); (4, 4, 4); (5, 5, 5)] ≠ 2%nat)
      as Hne by (simpl; lia).
    specialize (H Hne). vm_compute in H. discriminate H.
  - vm_compute. discriminate.
Qed.

(** C6, amended: assigning a list of 3-tuples to a slice never fails with
    the length-mismatch (ShapeMismatch) ValueError, whatever the length of
    the list, because the code never compares the list length with the
    slice; [set(slice(0,2), [(a,b,c)])] on a buffer of at least 2 pixels
    raises IndexError, from reading past the end of the list. *)
Theorem list_assignment_no_length_check
    (self : NeoPixel) (start stop step : option Z) (value : list pyvalue) :
  forallb is_3tuple value = true →
  snd (__setitem__ self (ISlice start stop step) (VList value)) ≠ Raise ValueError
  ∧ (wf self → 2 ≤ _n self →
     ∀ a b c,
       snd (__setitem__ self (ISlice (Some 0) (Some 2) None) (VList [triple a b c]))
       = Raise IndexError).
Proof.
  intros Hall. split; [by apply setitem_slice_list_no_ValueError|].
  intros Hwf Hn a b c.
  apply (setitem_slice_list_short self (Some 0) (Some 2) None 0 2 1 [(a, b, c)]);
    try done; rewrite !clamp_inside by lia; simpl; lia.
Qed.

Lemma list_assignment_no_length_check_witness :
  forallb is_3tuple [triple 1 1 1] = true ∧
  snd (__setitem__ (strip 2) (ISlice (Some 0) (Some 2) None) (VList [triple 1 1 1]))
  ≠ Raise ValueError
  ∧ (wf (strip 2) → 2 ≤ _n (strip 2) →
     ∀ a b c,
       snd (__setitem__ (strip 2) (ISlice (Some 0) (Some 2) None) (VList [triple a b c]))
       = Raise IndexError).
Proof.
  split; [reflexivity|].
  apply (list_assignment_no_length_check (strip 2) (Some 0) (Some 2) None [triple 1 1 1]).
  reflexivity.
Defined.

(** C7: for every in-bounds slice and every triple [(a,b,c)] with components
    in [0..255], assigning the triple to the slice succeeds and a get of the
    slice then returns one [(a,b,c)] per pixel of the slice, so every element
    equals [(a,b,c)]; if the slice is empty the assignment leaves the object,
    and so every byte of the buffer, as it was. *)
Theorem broadcast_fills_slice
    (self : NeoPixel) (start stop step : option Z) (s e st a b c : Z) :
  wf self → _unpack_slice self start stop step = Return (s, e, st) →
  0 ≤ s ≤ _n self → 0 ≤ e ≤ _n self →
  0 ≤ a ≤ 255 → 0 ≤ b ≤ 255 → 0 ≤ c ≤ 255 →
  ∃ self',
    __setitem__ self (ISlice start stop step) (triple a b c) = (self', Return tt)
    ∧ __getitem__ self' (ISlice start stop step)
      = Return (VList (replicate (Z.to_nat (e - s)) (triple a b c)))
    ∧ (e ≤ s → self' = self).
Proof.
  intros Hwf Hu Hs He Ha Hb Hc.
  destruct (broadcast_then_get self start stop step s e st a b c Hwf Hu Hs He)
    as (self' & Hset & _ & _ & Hget & Hempty).
  rewrite !mod_byte in Hget by done. by exists self'.
Qed.

Lemma broadcast_fills_slice_witness :
  wf (strip 4) ∧
  ∃ self',
    __setitem__ (strip 4) (ISlice (Some 1) (Some (-1)) None) (triple 0 0 40)
    = (self', Return tt)
    ∧ __getitem__ self' (ISlice (Some 1) (Some (-1)) None)
      = Return (VList (replicate (Z.to_nat (3 - 1)) (triple 0 0 40)))
    ∧ (3 ≤ 1 → self' = strip 4).
Proof.
  split; [split; reflexivity|].
  apply (broadcast_fills_slice (strip 4) (Some 1) (Some (-1)) None 1 3 1 0 0 40);
    [split; reflexivity | reflexivity | | | lia | lia | lia ];
    split; (lia || by vm_compute).
Defined.




(** C9: for every pixel index [i] in [[0, pixel_count)], channel [ch] in
    [{0,1,2}] and value [v] in [0..255], [set(i, ch, v)] succeeds; afterwards
    [get(i, ch)] is [v], every other channel of every pixel reads as before,
    and every pixel other than [i] reads as before. *)
Theorem set_channel_frame (self : NeoPixel) (i ch v : Z) :
  wf self → 0 ≤ i < _n self → 0 ≤ ch < 3 → 0 ≤ v ≤ 255 →
  ∃ self',
    __setitem__ self (ITuple [IInt i; IInt ch]) (VInt v) = (self', Return tt)
    ∧ __getitem__ self' (ITuple [IInt i; IInt ch]) = Return (VInt v)
    ∧ (∀ i' ch', 0 ≤ i' < _n self → 0 ≤ ch' < 3 → i' ≠ i ∨ ch' ≠ ch →
         __getitem__ self' (ITuple [IInt i'; IInt ch'])
         = __getitem__ self (ITuple [IInt i'; IInt ch']))
    ∧ (∀ i', 0 ≤ i' < _n self → i' ≠ i →
         __getitem__ self' (IInt i') = __getitem__ self (IInt i')).
Proof.
  intros Hwf Hi Hch Hv. pose proof (wf_length self Hwf) as HL.
  eexists. split; [by apply setitem_pair|].
  pose proof (wf_inserts self (Z.to_nat (i * 12 + ch * 4)) (expand v) Hwf) as Hwf'.
  split_and!.
  - rewrite getitem_pair by done. cbn [_data].
    rewrite channel_inserts_same by lia. by rewrite mod_byte.
  - intros i' ch' ???. rewrite !getitem_pair by done. cbn [_data].
    rewrite channel_inserts_disjoint; [done|rewrite length_expand; lia..].
  - intros i' ??. rewrite !getitem_int by done. cbn [_data].
    rewrite pixel_inserts_disjoint; [done|rewrite length_expand; lia..].
Qed.

Lemma set_channel_frame_witness :
  wf (strip 4) ∧
  ∃ self',
    __setitem__ (strip 4) (ITuple [IInt 2; IInt 2]) (VInt 255) = (self', Return tt)
    ∧ __getitem__ self' (ITuple [IInt 2; IInt 2]) = Return (VInt 255)
    ∧ (∀ i' ch', 0 ≤ i' < _n (strip 4) → 0 ≤ ch' < 3 → i' ≠ 2 ∨ ch' ≠ 2 →
         __getitem__ self' (ITuple [IInt i'; IInt ch'])
         = __getitem__ (strip 4) (ITuple [IInt i'; IInt ch']))
    ∧ (∀ i', 0 ≤ i' < _n (strip 4) → i' ≠ 2 →
         __getitem__ self' (IInt i') = __getitem__ (strip 4) (IInt i')).
Proof.
  split; [split; reflexivity|].
  apply (set_channel_frame (strip 4) 2 2 255);
    [split; reflexivity | split; (lia || by vm_compute) | lia | lia].
Defined.

(** C10: the triple-valued set forms check no channel range.  For any
    integers [a], [b], [c], negative or above 255 included, [set(pixel,
    (a,b,c))], the broadcast of [(a,b,c)] to an in-bounds slice and the
    assignment of the list [[(a,b,c)]] to a one-pixel slice all succeed, and
    a get then returns [(a mod 256, b mod 256, c mod 256)]; the paired
    [set(pixel, channel, value)] form alone rejects a value outside
    [0..255], with ValueError and an unchanged buffer. *)
Theorem triple_forms_no_range_check (self : NeoPixel) (i a b c : Z) :
  wf self → 0 ≤ i < _n self →
  (∃ self',
     __setitem__ self (IInt i) (triple a b c) = (self', Return tt)
     ∧ __getitem__ self' (IInt i)
       = Return (triple (a `mod` 256) (b `mod` 256) (c `mod` 256)))
  ∧ (∀ start stop step s e st,
       _unpack_slice self start stop step = Return (s, e, st) →
       0 ≤ s ≤ _n self → 0 ≤ e ≤ _n self →
       ∃ self',
         __setitem__ self (ISlice start stop step) (triple a b c) = (self', Return tt)
         ∧ __getitem__ self' (ISlice start stop step)
           = Return (VList (replicate (Z.to_nat (e - s))
                              (triple (a `mod` 256) (b `mod` 256) (c `mod` 256)))))
  ∧ (∃ self',
       __setitem__ self (ISlice (Some i) (Some (i + 1)) None) (VList [triple a b c])
       = (self', Return tt)
       ∧ __getitem__ self' (ISlice (Some i) (Some (i + 1)) None)
         = Return (VList [triple (a `mod` 256) (b `mod` 256) (c `mod` 256)]))
  ∧ (∀ ch v, 0 ≤ ch < 3 → v < 0 ∨ 255 < v →
       __setitem__ self (ITuple [IInt i; IInt ch]) (VInt v) = (self, Raise ValueError)).
Proof.
  intros Hwf Hi. split_and!.
  - by apply set_then_get.
  - intros start stop step s e st Hu Hs He.
    destruct (broadcast_then_get self start stop step s e st a b c Hwf Hu Hs He)
      as (self' & Hset & _ & _ & Hget & _).
    by exists self'.
  - apply (list_single_then_get self _ _ _ i (i + 1) 1); try done; try lia.
    unfold _unpack_slice. by zbool.
  - intros ch v ??. unfold __setitem__. zbool; by destruct self.
Qed.

Lemma triple_forms_no_range_check_witness :
  wf (strip 4) ∧
  ∃ self',
    __setitem__ (strip 4) (IInt 1) (triple 300 (-1) 6) = (self', Return tt)
    ∧ __getitem__ self' (IInt 1)
      = Return (triple (300 `mod` 256) ((-1) `mod` 256) (6 `mod` 256)).
Proof.
  split; [split; reflexivity|].
  destruct (triple_forms_no_range_check (strip 4) 1 300 (-1) 6) as (H & _).
  - split; reflexivity.
  - split; (lia || by vm_compute).
  - exact H.
Defined.

(** * Further properties of the code *)

(** ** Invariants of the storage *)

Lemma expanded_bit_in_table z : expanded_bit (Z.land z 0x3) ∈ _expanded_bits.
Proof.
  change 0x3 with (Z.ones 2). rewrite Z.land_ones by lia.
  pose proof (Z.mod_pos_bound z (2 ^ 2) eq_refl) as H. change (2 ^ 2) with 4 in *.
  assert (z `mod` 4 = 0 ∨ z `mod` 4 = 1 ∨ z `mod` 4 = 2 ∨ z `mod` 4 = 3) as Hc by lia.
  unfold expanded_bit, _expanded_bits.
  destruct Hc as [-> | [-> | [-> | ->]]]; cbn; repeat constructor.
Qed.

Section invariant.
Context (P : list Z → Prop) (Q : list Z → Prop).
Hypothesis P_insert : ∀ buf i x, x ∈ _expanded_bits → P buf → P (<[i:=x]> buf).
Hypothesis P_inserts : ∀ buf i src, Q src → P buf → P (list_inserts i src buf).
Hypothesis Q_items : ∀ buf mv, P buf → Q (mv_items mv buf).

Lemma keeps_ret {A} (a : A) : keeps P (ret a).
Proof. by intros buf. Qed.

Lemma keeps_raise {A} e : keeps P (@raise A e).
Proof. by intros buf. Qed.

Lemma keeps_read {A} (f : list Z → outcome A) : keeps P (read f).
Proof. by intros buf. Qed.

Lemma keeps_bind {A B} (m : M A) (f : A → M B) :
  keeps P m → (∀ a, keeps P (f a)) → keeps P (bind m f).
Proof.
  intros Hm Hf buf HP. unfold bind. specialize (Hm buf HP).
  destruct (m buf) as [buf' [a|e]]; [by apply Hf|done].
Qed.

Lemma keeps_for_each {A} (xs : list A) body :
  (∀ x, keeps P (body x)) → keeps P (for_each xs body).
Proof.
  intros Hb. induction xs as [|x xs IH]; [apply keeps_ret|].
  apply keeps_bind; [apply Hb|by intros _].
Qed.

Lemma keeps_mv_setitem mv k x : x ∈ _expanded_bits → keeps P (mv_setitem mv k x).
Proof.
  intros Hx buf HP. unfold mv_setitem. case_decide; [by apply P_insert|done].
Qed.

Lemma keeps_expand_byte v mv : keeps P (_expand_byte v mv).
Proof.
  destruct v; try apply keeps_raise. unfold _expand_byte.
  repeat (apply keeps_bind; [|intros _]);
    apply keeps_mv_setitem, expanded_bit_in_table.
Qed.

Lemma keeps_copy mv mv' a b :
  keeps P (do src <- read (fun buf => Return (mv_items mv buf));
           mv_setslice mv' a b src).
Proof.
  intros buf HP. unfold bind, read, mv_setslice.
  case_decide; [|done]. cbn [fst]. apply P_inserts; [by apply Q_items|done].
Qed.

Lemma keeps_method {A} self (body : M A) :
  keeps P body → P (_data self) → P (_data (fst (method self body))).
Proof.
  intros Hb HP. unfold method. specialize (Hb _ HP).
  by destruct (body (_data self)).
Qed.

Lemma setitem_keeps self index value :
  P (_data self) → P (_data (fst (__setitem__ self index value))).
Proof.
  unfold __setitem__. apply keeps_method.
  destruct index as [i|start stop step|[|ind1 [|ind2 [|]]]|];
    try apply keeps_raise; try apply keeps_ret.
  - destruct (_ || _); [apply keeps_raise|].
    destruct value as [|[|v0 [|v1 [|v2 [|]]]]| |]; try apply keeps_raise.
    repeat (apply keeps_bind; [|intros _]); apply keeps_expand_byte.
  - apply keeps_bind; [apply keeps_read|]. intros [[s e] st].
    case_decide; [apply keeps_ret|].
    destruct value as [|[|v0 [|v1 [|v2 [|]]]]|value|]; try apply keeps_raise.
    + repeat (apply keeps_bind; [apply keeps_expand_byte|intros _]).
      apply keeps_for_each. intros i. apply keeps_copy.
    + destruct (forallb is_3tuple value); [|apply keeps_raise].
      apply keeps_for_each. intros i.
      destruct (value !! (i / 3)%nat) as [[|[|v0 [|v1 [|v2 [|]]]]| |]|];
        try apply keeps_raise.
      repeat (apply keeps_bind; [|intros _]); apply keeps_expand_byte.
  - destruct ind1 as [i1| | |], ind2 as [i2| | |]; try apply keeps_raise.
    destruct (_ || _); [apply keeps_raise|].
    destruct value as [v| | |]; try apply keeps_raise.
    destruct (_ || _); [apply keeps_raise|]. apply keeps_expand_byte.
Qed.

Lemma rotate_keeps self count :
  P (_data self) → P (_data (fst (rotate self count))).
Proof.
  unfold rotate. apply keeps_method.
  destruct (_ =? _); [apply keeps_raise|].
  intros buf HP. unfold bind, read, mv_setslice.
  repeat (case_decide; cbn [fst]); try done.
  - apply P_inserts; [by apply Q_items|]. apply P_inserts; [by apply Q_items|done].
  - apply P_inserts; [by apply Q_items|done].
Qed.
End invariant.

Lemma snd_fst_method {A} self (body : M A) : _n (fst (method self body)) = _n self.
Proof. unfold method. by destruct (body (_data self)). Qed.

(** The bytes a broadcast leaves in the slice and outside it. *)
Lemma setitem_slice_broadcast_bytes self start stop step s e st a b c :
  wf self → _unpack_slice self start stop step = Return (s, e, st) →
  (clamp (_n self) s < clamp (_n self) e)%nat →
  ∃ buf',
    __setitem__ self (ISlice start stop step) (triple a b c)
    = ({| _n := _n self; _data := buf' |}, Return tt)
    ∧ length buf' = length (_data self)
    ∧ (∀ j t, clamp (_n self) s ≤ j < clamp (_n self) e → t < 12 →
         buf' !! (12 * j + t) = expand_pixel a b c !! t)%nat
    ∧ (∀ x, x < 12 * clamp (_n self) s ∨ 12 * clamp (_n self) e ≤ x →
         buf' !! x = _data self !! x)%nat.
Proof.
  intros Hwf Hu Hpq.
  pose proof (clamp_le (_n self) e). pose proof (wf_length self Hwf) as HL.
  destruct Hwf as [Hn _].
  unfold __setitem__, triple. unfold bind at 1, read at 1. rewrite Hu.
  rewrite data_slice by (split; [done|lia]). cbn [mv_len].
  set (p := clamp (_n self) s) in *. set (q := clamp (_n self) e) in *.
  rewrite decide_False by lia.
  set (buf := _data self) in *.
  destruct (broadcast_loop (12 * p) (q - p) (expand_pixel a b c) (q - p - 1) eq_refl 0
              (list_inserts (12 * p) (expand_pixel a b c) buf))
    as (buf' & Hloop & Hl & Hlk).
  { lia. }
  { rewrite length_inserts. lia. }
  { intros t ?. rewrite lookup_inserts by (rewrite length_expand_pixel; lia).
    rewrite decide_True by (rewrite length_expand_pixel; lia). f_equal. lia. }
  exists buf'. split_and!.
  - apply method_run. fold buf. unfold bind.
    rewrite expand_byte_inside by lia.
    rewrite expand_byte_inside by (rewrite ?length_inserts; lia).
    rewrite expand_byte_inside by (rewrite ?length_inserts; lia).
    change (Z.to_nat 0) with 0%nat. change (Z.to_nat 4) with 4%nat.
    change (Z.to_nat 8) with 8%nat. rewrite Nat.add_0_r.
    rewrite inserts_expand_pixel by lia.
    replace (py_range 12 (12 * (q - p)) 12)
      with ((fun j => 12 * (1 + j))%nat <$> seq 0 (q - p - 1)).
    + apply Hloop.
    + rewrite <- (py_range_12 1 (q - p - 1)). f_equal. lia.
  - by rewrite Hl, length_inserts.
  - intros j t ??. rewrite Hlk.
    rewrite lookup_inserts by (rewrite length_expand_pixel; lia).
    rewrite length_expand_pixel.
    repeat case_decide; try lia.
    + f_equal. symmetry. apply (Nat.mod_unique _ 12 (j - p)); lia.
    + f_equal. lia.
  - intros x ?. rewrite Hlk. rewrite decide_False by lia.
    rewrite lookup_inserts by (rewrite length_expand_pixel; lia).
    by rewrite decide_False by (rewrite length_expand_pixel; lia).
Qed.

Lemma expand_encoded v : encoded (expand v).
Proof.
  unfold expand, encoded.
  repeat (apply Forall_cons; [apply expanded_bit_in_table|]). apply Forall_nil.
Qed.

Lemma expand_pixel_encoded a b c : encoded (expand_pixel a b c).
Proof.
  unfold expand_pixel, encoded. rewrite !Forall_app.
  split_and!; apply expand_encoded.
Qed.

(** X1: constructing a strip of [pixel_count > 0] pixels succeeds; the
    object has [n = pixel_count], holds [pixel_count * 12] bytes, every byte
    is one of the four table bytes and every pixel reads [(0, 0, 0)]. *)
Theorem init_black (pixel_count : Z) :
  0 < pixel_count →
  ∃ self,
    __init__ pixel_count = (self, Return tt)
    ∧ n self = pixel_count
    ∧ wf self
    ∧ encoded (_data self)
    ∧ ∀ i, 0 ≤ i < pixel_count → __getitem__ self (IInt i) = Return (triple 0 0 0).
Proof.
  intros Hn. unfold __init__. zbool.
  set (self0 := {| _n := pixel_count; _data := replicate (Z.to_nat (pixel_count * 12)) 0 |}).
  assert (wf self0) as Hwf0.
  { split; [done|]. unfold self0; simpl. by rewrite length_replicate. }
  destruct (setitem_slice_broadcast_bytes self0 None None None 0 pixel_count 1 0 0 0)
    as (buf' & Hset & Hl & Hin & _); [done|done|..].
  { cbn [_n self0]. rewrite !clamp_inside by lia. lia. }
  cbn [_n self0] in *. rewrite !clamp_inside in Hin by lia.
  assert (length buf' = Z.to_nat (pixel_count * 12)) as Hl'.
  { rewrite Hl. unfold self0; simpl. by rewrite length_replicate. }
  exists {| _n := pixel_count; _data := buf' |}.
  assert (wf {| _n := pixel_count; _data := buf' |}) as Hwf by done.
  split_and!; try done.
  - apply Forall_lookup. intros x y Hx.
    pose proof (lookup_lt_Some _ _ _ Hx) as Hlt.
    pose proof (Nat.div_mod_eq x 12) as Hdm.
    pose proof (Nat.mod_upper_bound x 12 ltac:(lia)) as Hr.
    revert Hdm Hr. generalize (x / 12)%nat (x `mod` 12)%nat. intros q r -> Hr.
    cbn [_data] in Hx, Hlt. rewrite Hin in Hx by lia.
    eapply (proj1 (Forall_lookup _ _) (expand_pixel_encoded 0 0 0)), Hx.
  - intros i Hi. rewrite getitem_int by done. cbn [_data].
    rewrite (pixel_of_bytes 0 0 0); [done|].
    intros t ?. replace (Z.to_nat (i * 12) + t)%nat with (12 * Z.to_nat i + t)%nat by lia.
    apply Hin; lia.
Qed.

Lemma init_black_witness :
  0 < 3 ∧
  ∃ self,
    __init__ 3 = (self, Return tt)
    ∧ n self = 3
    ∧ wf self
    ∧ encoded (_data self)
    ∧ ∀ i, 0 ≤ i < 3 → __getitem__ self (IInt i) = Return (triple 0 0 0).
Proof. split; [lia|]. apply (init_black 3). lia. Defined.

(** X2: whatever the index and the value, and whether it returns or raises,
    [__setitem__] leaves [pixel_count] and the length of the buffer as they
    were, and so does [rotate] for every count: the buffer is never
    resized. *)
Theorem shape_is_kept (self : NeoPixel) :
  (∀ index value,
     _n (fst (__setitem__ self index value)) = _n self
     ∧ length (_data (fst (__setitem__ self index value))) = length (_data self))
  ∧ (∀ count,
       _n (fst (rotate self count)) = _n self
       ∧ length (_data (fst (rotate self count))) = length (_data self)).
Proof.
  split.
  - intros index value. split; [apply snd_fst_method|].
    apply (setitem_keeps (fun buf => length buf = length (_data self)) (fun _ => True));
      intros; rewrite ?length_insert, ?length_inserts; done.
  - intros count. split; [apply snd_fst_method|].
    apply (rotate_keeps (fun buf => length buf = length (_data self)) (fun _ => True));
      intros; rewrite ?length_insert, ?length_inserts; done.
Qed.

(** X3: starting from a buffer in which every byte is one of the four table
    bytes [0x88, 0x8C, 0xC8, 0xCC], every [__setitem__] and every [rotate],
    successful or not, leaves such a buffer. *)
Theorem encoded_is_kept (self : NeoPixel) :
  encoded (_data self) →
  (∀ index value, encoded (_data (fst (__setitem__ self index value))))
  ∧ (∀ count, encoded (_data (fst (rotate self count)))).
Proof.
  intros Henc.
  assert (∀ buf i x, x ∈ _expanded_bits → encoded buf → encoded (<[i:=x]> buf)) as H1
    by (intros; by apply Forall_insert).
  assert (∀ buf i src, encoded src → encoded buf → encoded (list_inserts i src buf)) as H2
    by (intros; by apply Forall_inserts).
  assert (∀ buf mv, encoded buf → encoded (mv_items mv buf)) as H3
    by (intros; by apply Forall_take, Forall_drop).
  split.
  - intros index value. by apply (setitem_keeps encoded encoded).
  - intros count. by apply (rotate_keeps encoded encoded).
Qed.

Lemma encoded_is_kept_witness :
  encoded (_data (strip 2))
  ∧ (∀ index value, encoded (_data (fst (__setitem__ (strip 2) index value))))
  ∧ (∀ count, encoded (_data (fst (rotate (strip 2) count)))).
Proof.
  assert (encoded (_data (strip 2))) as H by (vm_compute; repeat constructor).
  split; [exact H|]. apply (encoded_is_kept (strip 2)). exact H.
Defined.

(** ** The bit layout of the codec *)

Lemma land_bit b k :
  0 ≤ k → Z.land b (2 ^ k) = if Z.testbit b k then 2 ^ k else 0.
Proof.
  intros Hk. apply Z.bits_inj'. intros j Hj.
  rewrite Z.land_spec, Z.pow2_bits_eqb by done.
  destruct (Z.eqb_spec k j) as [->|Hne].
  - destruct (Z.testbit b j); [by rewrite Z.pow2_bits_true|by rewrite Z.bits_0].
  - rewrite andb_false_r. destruct (Z.testbit b k); [|by rewrite Z.bits_0].
    by rewrite Z.pow2_bits_false.
Qed.

(** [_compress_byte] reads bits 6 and 2 of each byte, nothing else. *)
Lemma compress_bits b1 b2 b3 b4 :
  ∃ v,
    _compress_byte [b1; b2; b3; b4] = Return v
    ∧ 0 ≤ v ≤ 255
    ∧ Z.testbit v 7 = Z.testbit b1 6 ∧ Z.testbit v 6 = Z.testbit b1 2
    ∧ Z.testbit v 5 = Z.testbit b2 6 ∧ Z.testbit v 4 = Z.testbit b2 2
    ∧ Z.testbit v 3 = Z.testbit b3 6 ∧ Z.testbit v 2 = Z.testbit b3 2
    ∧ Z.testbit v 1 = Z.testbit b4 6 ∧ Z.testbit v 0 = Z.testbit b4 2.
Proof.
  eexists. split; [reflexivity|]. cbv zeta.
  change 0x40 with (2 ^ 6). change 0x04 with (2 ^ 2). rewrite !land_bit by lia.
  destruct (Z.testbit b1 6), (Z.testbit b1 2), (Z.testbit b2 6), (Z.testbit b2 2),
    (Z.testbit b3 6), (Z.testbit b3 2), (Z.testbit b4 6), (Z.testbit b4 2);
    vm_compute; intuition congruence.
Qed.

Lemma channel_range buf off c : channel buf off = Return c → 0 ≤ c ≤ 255.
Proof.
  unfold channel. intros H.
  destruct (mv_items (MView off 4) buf) as [|b1 [|b2 [|b3 [|b4 [|]]]]]; try discriminate H.
  destruct (compress_bits b1 b2 b3 b4) as (v & Hv & ? & _).
  rewrite Hv in H. by injection H as <-.
Qed.

Lemma pixel_range buf off v :
  pixel buf off = Return v →
  ∃ a b c, v = triple a b c ∧ 0 ≤ a ≤ 255 ∧ 0 ≤ b ≤ 255 ∧ 0 ≤ c ≤ 255.
Proof.
  unfold pixel. intros H.
  destruct (channel buf off) as [a|] eqn:Ha; [|discriminate H].
  destruct (channel buf (off + 4)) as [b|] eqn:Hb; [|discriminate H].
  destruct (channel buf (off + 8)) as [c|] eqn:Hc; [|discriminate H].
  injection H as <-. exists a, b, c.
  split_and!; [done|by eapply channel_range..].
Qed.

Lemma expand_table :
  forallb (fun k =>
    forallb (fun j =>
      let b := nth j (expand (Z.of_nat k)) 0 in
      (Z.land b 0xBB =? 0x88)
      && Bool.eqb (Z.testbit b 6) (Z.testbit (Z.of_nat k) (7 - 2 * Z.of_nat j))
      && Bool.eqb (Z.testbit b 2) (Z.testbit (Z.of_nat k) (6 - 2 * Z.of_nat j)))
      (seq 0 4)) (seq 0 256) = true.
Proof. vm_compute. reflexivity. Qed.

Lemma expand_layout v j b :
  expand v !! j = Some b →
  Z.land b 0xBB = 0x88
  ∧ Z.testbit b 6 = Z.testbit v (7 - 2 * Z.of_nat j)
  ∧ Z.testbit b 2 = Z.testbit v (6 - 2 * Z.of_nat j).
Proof.
  intros Hb. pose proof (lookup_lt_Some _ _ _ Hb) as Hj. rewrite length_expand in Hj.
  rewrite <- expand_mod in Hb.
  pose proof (Z.mod_pos_bound v 256 eq_refl) as Hm.
  rewrite <- (Z.mod_pow2_bits_low v 8 (7 - 2 * Z.of_nat j)) by lia.
  rewrite <- (Z.mod_pow2_bits_low v 8 (6 - 2 * Z.of_nat j)) by lia.
  change (2 ^ 8) with 256. revert Hb Hm. generalize (v `mod` 256). clear v. intros w Hb Hw.
  pose proof (proj1 (forallb_forall _ _) expand_table (Z.to_nat w)) as H.
  cbv beta in H. rewrite Z2Nat.id in H by lia.
  specialize (H ltac:(apply in_seq; lia)).
  pose proof (proj1 (forallb_forall _ _) H j ltac:(apply in_seq; lia)) as Hj'.
  cbv beta zeta in Hj'.
  rewrite (nth_lookup_Some _ _ _ _ Hb) in Hj'.
  apply andb_prop in Hj' as [[H1 H2]%andb_prop H3].
  split_and!; [by apply Z.eqb_eq|by apply Bool.eqb_prop..].
Qed.

(** X4: the bytes [_expand_byte] stores for any Python integer [v] through
    a 4-byte view: byte [j] has bits 7 and 3 set and bits 5, 4, 1 and 0
    clear, its bit 6 is bit [7 - 2j] of [v] and its bit 2 is bit [6 - 2j] of
    [v] (most significant pair first). *)
Theorem expand_byte_layout (v : Z) (mv : memoryview) (buf : list Z) (j : nat) (b : Z) :
  mv_len mv = 4%nat → (mv_off mv + 4 ≤ length buf)%nat →
  mv_items mv (fst (_expand_byte (VInt v) mv buf)) !! j = Some b →
  Z.land b 0xBB = 0x88
  ∧ Z.testbit b 6 = Z.testbit v (7 - 2 * Z.of_nat j)
  ∧ Z.testbit b 2 = Z.testbit v (6 - 2 * Z.of_nat j).
Proof.
  intros Hl Hb. destruct mv as [off len]. simpl in Hl, Hb. subst len.
  rewrite expand_byte_run by done. cbn [fst].
  rewrite <- (length_expand v) at 1. rewrite mv_items_inserts_same by done.
  apply expand_layout.
Qed.

Lemma expand_byte_layout_witness :
  mv_items (MView 0 4) (fst (_expand_byte (VInt 27) (MView 0 4) [0; 0; 0; 0])) !! 1%nat
  = Some 0x8C
  ∧ Z.land 0x8C 0xBB = 0x88
  ∧ Z.testbit 0x8C 6 = Z.testbit 27 (7 - 2 * Z.of_nat 1)
  ∧ Z.testbit 0x8C 2 = Z.testbit 27 (6 - 2 * Z.of_nat 1).
Proof.
  split; [reflexivity|].
  apply (expand_byte_layout 27 (MView 0 4) [0; 0; 0; 0] 1 0x8C);
    [reflexivity | simpl; lia | reflexivity].
Defined.

(** X5: [_compress_byte] returns for every four integers, whatever their
    bits, a value in [0..255] made of bits 6 and 2 of each byte, first byte
    first; on any other number of items it raises ValueError. *)
Theorem compress_byte_bits (mv : list Z) :
  match mv with
  | [b1; b2; b3; b4] =>
      ∃ v,
        _compress_byte mv = Return v
        ∧ 0 ≤ v ≤ 255
        ∧ Z.testbit v 7 = Z.testbit b1 6 ∧ Z.testbit v 6 = Z.testbit b1 2
        ∧ Z.testbit v 5 = Z.testbit b2 6 ∧ Z.testbit v 4 = Z.testbit b2 2
        ∧ Z.testbit v 3 = Z.testbit b3 6 ∧ Z.testbit v 2 = Z.testbit b3 2
        ∧ Z.testbit v 1 = Z.testbit b4 6 ∧ Z.testbit v 0 = Z.testbit b4 2
  | _ => _compress_byte mv = Raise ValueError
  end.
Proof.
  destruct mv as [|b1 [|b2 [|b3 [|b4 [|]]]]]; try reflexivity.
  apply compress_bits.
Qed.

(** ** Reading a pixel and writing it back *)

Lemma expand_compress bs v :
  encoded bs → _compress_byte bs = Return v → expand v = bs.
Proof.
  intros Henc H. destruct bs as [|b1 [|b2 [|b3 [|b4 [|]]]]]; try discriminate H.
  apply Forall_cons_1 in Henc as [H1 Henc]. apply Forall_cons_1 in Henc as [H2 Henc].
  apply Forall_cons_1 in Henc as [H3 Henc]. apply Forall_cons_1 in Henc as [H4 _].
  apply list_elem_of_In in H1, H2, H3, H4. cbn [In _expanded_bits] in H1, H2, H3, H4.
  destruct H1 as [<-|[<-|[<-|[<-|[]]]]], H2 as [<-|[<-|[<-|[<-|[]]]]],
    H3 as [<-|[<-|[<-|[<-|[]]]]], H4 as [<-|[<-|[<-|[<-|[]]]]];
    vm_compute in H; injection H as <-; reflexivity.
Qed.

Lemma channel_inserts_pixel off a0 a1 a2 buf k v :
  (off + 12 ≤ length buf)%nat →
  (k = 0%nat ∧ v = a0) ∨ (k = 4%nat ∧ v = a1) ∨ (k = 8%nat ∧ v = a2) →
  channel (list_inserts off (expand_pixel a0 a1 a2) buf) (off + k) = Return (v `mod` 256).
Proof.
  intros Hl Hk.
  rewrite (channel_ext (off + k) k _ (expand_pixel a0 a1 a2)).
  - destruct Hk as [[-> ->]|[[-> ->]|[-> ->]]].
    + change (channel (expand_pixel a0 a1 a2) 0) with (_compress_byte (expand a0)).
      apply compress_expand.
    + change (channel (expand_pixel a0 a1 a2) 4) with (_compress_byte (expand a1)).
      apply compress_expand.
    + change (channel (expand_pixel a0 a1 a2) 8) with (_compress_byte (expand a2)).
      apply compress_expand.
  - intros t ?. rewrite lookup_inserts by (rewrite length_expand_pixel; lia).
    rewrite decide_True by (rewrite length_expand_pixel; lia). f_equal. lia.
Qed.

Lemma pixel_write_back buf off v :
  encoded buf → (off + 12 ≤ length buf)%nat → pixel buf off = Return v →
  ∃ a b c, v = triple a b c ∧ list_inserts off (expand_pixel a b c) buf = buf.
Proof.
  intros Henc Hl. unfold pixel. intros H.
  assert (∀ o, encoded (mv_items (MView o 4) buf)) as Hit
    by (intros; by apply Forall_take, Forall_drop).
  destruct (channel buf off) as [a|] eqn:Ha; [|discriminate H].
  destruct (channel buf (off + 4)) as [b|] eqn:Hb; [|discriminate H].
  destruct (channel buf (off + 8)) as [c|] eqn:Hc; [|discriminate H].
  injection H as <-. exists a, b, c. split; [done|].
  apply expand_compress in Ha, Hb, Hc; try done.
  apply list_eq; intros j. rewrite lookup_inserts by (rewrite length_expand_pixel; lia).
  rewrite length_expand_pixel. case_decide; [|done].
  unfold expand_pixel. rewrite Ha, Hb, Hc.
  assert (∀ o, o + 4 ≤ length buf → length (mv_items (MView o 4) buf) = 4)%nat as Hlen
    by (intros; by apply length_mv_items).
  destruct (decide (j - off < 4)%nat).
  - rewrite lookup_app_l by (rewrite Hlen; lia).
    rewrite lookup_mv_items, decide_True by lia. f_equal. lia.
  - rewrite lookup_app_r by (rewrite Hlen; lia). rewrite Hlen by lia.
    destruct (decide (j - off - 4 < 4)%nat).
    + rewrite lookup_app_l by (rewrite Hlen; lia).
      rewrite lookup_mv_items, decide_True by lia. f_equal. lia.
    + rewrite lookup_app_r by (rewrite Hlen; lia). rewrite Hlen by lia.
      rewrite lookup_mv_items, decide_True by lia. f_equal. lia.
Qed.

(** X6: on a well-formed buffer whose bytes are all table bytes, reading a
    pixel and assigning what was read to the same pixel succeeds and leaves
    the object exactly as it was. *)
Theorem write_back_is_identity (self : NeoPixel) (i : Z) :
  wf self → encoded (_data self) → 0 ≤ i < _n self →
  ∃ v,
    __getitem__ self (IInt i) = Return v
    ∧ __setitem__ self (IInt i) v = (self, Return tt).
Proof.
  intros Hwf Henc Hi. pose proof (wf_length self Hwf) as HL.
  destruct (pixel_returns (_data self) (Z.to_nat (i * 12))) as [v Hv]; [lia|].
  exists v. split; [by rewrite getitem_int|].
  assert (Z.to_nat (i * 12) + 12 ≤ length (_data self))%nat as Hlen by lia.
  destruct (pixel_write_back _ _ _ Henc Hlen Hv) as (a & b & c & -> & Heq).
  rewrite setitem_int, Heq by done. by destruct self.
Qed.

Lemma write_back_is_identity_witness :
  wf (strip 2) ∧ encoded (_data (strip 2)) ∧
  ∃ v,
    __getitem__ (strip 2) (IInt 1) = Return v
    ∧ __setitem__ (strip 2) (IInt 1) v = (strip 2, Return tt).
Proof.
  assert (encoded (_data (strip 2))) as H by (vm_compute; repeat constructor).
  split; [split; reflexivity|]. split; [exact H|].
  apply (write_back_is_identity (strip 2) 1);
    [split; reflexivity | exact H | split; (lia || by vm_compute)].
Defined.

(** X7: for a pixel index [i] in [[0, pixel_count)] and components in
    [0..255], [set(i, (a,b,c))] succeeds and keeps the buffer well formed;
    afterwards [get(i)] is [(a,b,c)], the paired reads [get(i, 0)],
    [get(i, 1)], [get(i, 2)] are [a], [b], [c], and every other pixel reads
    as before. *)
Theorem set_pixel_frame (self : NeoPixel) (i a b c : Z) :
  wf self → 0 ≤ i < _n self → 0 ≤ a ≤ 255 → 0 ≤ b ≤ 255 → 0 ≤ c ≤ 255 →
  ∃ self',
    __setitem__ self (IInt i) (triple a b c) = (self', Return tt)
    ∧ wf self'
    ∧ __getitem__ self' (IInt i) = Return (triple a b c)
    ∧ __getitem__ self' (ITuple [IInt i; IInt 0]) = Return (VInt a)
    ∧ __getitem__ self' (ITuple [IInt i; IInt 1]) = Return (VInt b)
    ∧ __getitem__ self' (ITuple [IInt i; IInt 2]) = Return (VInt c)
    ∧ ∀ i', 0 ≤ i' < _n self → i' ≠ i →
        __getitem__ self' (IInt i') = __getitem__ self (IInt i').
Proof.
  intros Hwf Hi Ha Hb Hc. pose proof (wf_length self Hwf) as HL.
  eexists. split; [by apply setitem_int|].
  pose proof (wf_inserts self (Z.to_nat (i * 12)) (expand_pixel a b c) Hwf) as Hwf'.
  split_and!; try done.
  - rewrite getitem_int by done. cbn [_data].
    rewrite pixel_inserts_same by lia. by rewrite !mod_byte.
  - rewrite getitem_pair by (done || lia). cbn [_data].
    replace (Z.to_nat (i * 12 + 0 * 4)) with (Z.to_nat (i * 12) + 0)%nat by lia.
    rewrite (channel_inserts_pixel _ a b c _ 0 a) by (lia || auto).
    by rewrite mod_byte.
  - rewrite getitem_pair by (done || lia). cbn [_data].
    replace (Z.to_nat (i * 12 + 1 * 4)) with (Z.to_nat (i * 12) + 4)%nat by lia.
    rewrite (channel_inserts_pixel _ a b c _ 4 b) by (lia || auto).
    by rewrite mod_byte.
  - rewrite getitem_pair by (done || lia). cbn [_data].
    replace (Z.to_nat (i * 12 + 2 * 4)) with (Z.to_nat (i * 12) + 8)%nat by lia.
    rewrite (channel_inserts_pixel _ a b c _ 8 c) by (lia || auto).
    by rewrite mod_byte.
  - intros i' ??. rewrite !getitem_int by done. cbn [_data].
    rewrite pixel_inserts_disjoint; [done|rewrite length_expand_pixel; lia..].
Qed.

Lemma set_pixel_frame_witness :
  wf (strip 4) ∧
  ∃ self',
    __setitem__ (strip 4) (IInt 1) (triple 128 0 0) = (self', Return tt)
    ∧ wf self'
    ∧ __getitem__ self' (IInt 1) = Return (triple 128 0 0)
    ∧ __getitem__ self' (ITuple [IInt 1; IInt 0]) = Return (VInt 128)
    ∧ __getitem__ self' (ITuple [IInt 1; IInt 1]) = Return (VInt 0)
    ∧ __getitem__ self' (ITuple [IInt 1; IInt 2]) = Return (VInt 0)
    ∧ ∀ i', 0 ≤ i' < _n (strip 4) → i' ≠ 1 →
        __getitem__ self' (IInt i') = __getitem__ (strip 4) (IInt i').
Proof.
  split; [split; reflexivity|].
  apply (set_pixel_frame (strip 4) 1 128 0 0);
    [split; reflexivity | split; (lia || by vm_compute) | lia | lia | lia].
Defined.

(** X8: copying a pixel, [np[j] = np[i]], for [i] and [j] in
    [[0, pixel_count)]: the read succeeds, the assignment of what was read
    succeeds, pixel [j] then reads as pixel [i] did and every pixel other
    than [j] reads as before. *)
Theorem pixel_copy (self : NeoPixel) (i j : Z) :
  wf self → 0 ≤ i < _n self → 0 ≤ j < _n self →
  ∃ v self',
    __getitem__ self (IInt i) = Return v
    ∧ __setitem__ self (IInt j) v = (self', Return tt)
    ∧ __getitem__ self' (IInt j) = Return v
    ∧ ∀ i', 0 ≤ i' < _n self → i' ≠ j →
        __getitem__ self' (IInt i') = __getitem__ self (IInt i').
Proof.
  intros Hwf Hi Hj. pose proof (wf_length self Hwf) as HL.
  destruct (pixel_returns (_data self) (Z.to_nat (i * 12))) as [v Hv]; [lia|].
  destruct (pixel_range _ _ _ Hv) as (a & b & c & -> & Ha & Hb & Hc).
  pose proof (wf_inserts self (Z.to_nat (j * 12)) (expand_pixel a b c) Hwf) as Hwf'.
  exists (triple a b c). eexists. split_and!.
  - by rewrite getitem_int.
  - by apply setitem_int.
  - rewrite getitem_int by done. cbn [_data].
    rewrite pixel_inserts_same by lia. by rewrite !mod_byte.
  - intros i' ??. rewrite !getitem_int by done. cbn [_data].
    rewrite pixel_inserts_disjoint; [done|rewrite length_expand_pixel; lia..].
Qed.

Lemma pixel_copy_witness :
  wf rainbow ∧
  ∃ v self',
    __getitem__ rainbow (IInt 1) = Return v
    ∧ __setitem__ rainbow (IInt 3) v = (self', Return tt)
    ∧ __getitem__ self' (IInt 3) = Return v
    ∧ ∀ i', 0 ≤ i' < _n rainbow → i' ≠ 3 →
        __getitem__ self' (IInt i') = __getitem__ rainbow (IInt i').
Proof.
  split; [split; reflexivity|].
  apply (pixel_copy rainbow 1 3);
    [split; reflexivity | split; (lia || by vm_compute) | split; (lia || by vm_compute)].
Defined.

(** ** Slices, pixel by pixel *)

(** X9: a get of an in-bounds slice [s:e] returns [e - s] pixels in
    ascending order: element [j] of the result is what the single-index get
    of pixel [s + j] returns. *)
Theorem slice_get_pixelwise
    (self : NeoPixel) (start stop step : option Z) (s e st : Z) :
  wf self → _unpack_slice self start stop step = Return (s, e, st) →
  0 ≤ s → s ≤ e → e ≤ _n self →
  ∃ l,
    __getitem__ self (ISlice start stop step) = Return (VList l)
    ∧ length l = Z.to_nat (e - s)
    ∧ ∀ j : nat, (j < length l)%nat →
        ∃ v, l !! j = Some v ∧ __getitem__ self (IInt (s + Z.of_nat j)) = Return v.
Proof.
  intros Hwf Hu Hs Hse He. pose proof (wf_length self Hwf) as HL.
  rewrite (getitem_slice self start stop step s e st) by done.
  rewrite !clamp_inside by lia.
  destruct (pixels_total (_data self) (Z.to_nat s) (Z.to_nat e - Z.to_nat s))
    as (l & Hl & Hlen); [lia|].
  exists l. rewrite Hl. split_and!; [done|lia|].
  intros j Hj. unfold pixels in Hl.
  destruct (comprehension_lookup _ _ _ Hl j (12 * (Z.to_nat s + j))%nat) as (v & ? & Hv).
  - rewrite list_lookup_fmap, lookup_seq_lt by lia. done.
  - exists v. split; [done|]. rewrite getitem_int by (done || lia).
    by replace (Z.to_nat ((s + Z.of_nat j) * 12)) with (12 * (Z.to_nat s + j))%nat by lia.
Qed.

Lemma slice_get_pixelwise_witness :
  wf (strip 4) ∧
  ∃ l,
    __getitem__ (strip 4) (ISlice (Some 1) (Some (-1)) None) = Return (VList l)
    ∧ length l = Z.to_nat (3 - 1)
    ∧ ∀ j : nat, (j < length l)%nat →
        ∃ v, l !! j = Some v ∧ __getitem__ (strip 4) (IInt (1 + Z.of_nat j)) = Return v.
Proof.
  split; [split; reflexivity|].
  apply (slice_get_pixelwise (strip 4) (Some 1) (Some (-1)) None 1 3 1);
    [split; reflexivity | reflexivity | lia | lia | by vm_compute].
Defined.

(** X10: broadcasting an integer triple to an in-bounds slice [s:e] changes
    no pixel outside the slice: every pixel below [s] or from [e] on reads
    as before. *)
Theorem broadcast_frame
    (self : NeoPixel) (start stop step : option Z) (s e st a b c i : Z) :
  wf self → _unpack_slice self start stop step = Return (s, e, st) →
  0 ≤ s ≤ _n self → 0 ≤ e ≤ _n self →
  0 ≤ i < _n self → i < s ∨ e ≤ i →
  __getitem__ (fst (__setitem__ self (ISlice start stop step) (triple a b c))) (IInt i)
  = __getitem__ self (IInt i).
Proof.
  intros Hwf Hu Hs He Hi Hout. pose proof (wf_length self Hwf) as HL.
  destruct (decide (e ≤ s)) as [Hes|Hes].
  - rewrite (setitem_slice_empty self start stop step s e st); [done..|].
    rewrite !clamp_inside by lia. lia.
  - destruct (setitem_slice_broadcast self start stop step s e st a b c)
      as (buf' & -> & Hl & _ & Hsame); [done..| |].
    { rewrite !clamp_inside by lia. lia. }
    rewrite !clamp_inside in Hsame by lia. cbn [fst].
    assert (wf {| _n := _n self; _data := buf' |}) as Hwf'
      by (destruct Hwf; split; simpl; [done|congruence]).
    rewrite (getitem_int _ i Hwf') by done. rewrite (getitem_int self i Hwf) by done.
    cbn [_data]. apply pixel_ext. intros t ?. apply Hsame. lia.
Qed.

Lemma broadcast_frame_witness :
  wf (strip 4) ∧
  __getitem__ (fst (__setitem__ (strip 4) (ISlice (Some 1) (Some 3) None) (triple 9 8 7)))
    (IInt 3)
  = __getitem__ (strip 4) (IInt 3).
Proof.
  split; [split; reflexivity|].
  apply (broadcast_frame (strip 4) (Some 1) (Some 3) None 1 3 1 9 8 7 3);
    [split; reflexivity | reflexivity | | | | lia]; split; (lia || by vm_compute).
Defined.

(** X11: slice bounds wrap a second time.  A start (or stop) below
    [-pixel_count] is still negative after [_unpack_slice] has added
    [pixel_count], and the memoryview then counts it from the end again: for
    [1 <= j <= pixel_count] the slice [-(pixel_count + j):] selects the last
    [j] pixels, exactly as [-j:] does, in get and in set. *)
Theorem slice_start_wraps_twice (self : NeoPixel) (j : Z) (stop : option Z) :
  wf self → 1 ≤ j ≤ _n self →
  __getitem__ self (ISlice (Some (- (_n self + j))) stop None)
  = __getitem__ self (ISlice (Some (- j)) stop None)
  ∧ ∀ value,
      __setitem__ self (ISlice (Some (- (_n self + j))) stop None) value
      = __setitem__ self (ISlice (Some (- j)) stop None) value.
Proof.
  intros Hwf Hj. destruct Hwf as [Hn Hl].
  set (e := match stop with
            | None => _n self
            | Some x => if x <? 0 then x + _n self else x
            end).
  apply (slice_by_clamp self _ _ _ _ _ _ (- j) e 1 (_n self - j) e 1).
  - done.
  - unfold _unpack_slice. cbn [negb]. zbool. fold e. do 3 f_equal. lia.
  - unfold _unpack_slice. cbn [negb]. zbool. fold e. do 3 f_equal. lia.
  - unfold clamp. zbool; lia.
  - done.
Qed.

Lemma slice_start_wraps_twice_witness :
  wf (strip 4) ∧
  __getitem__ (strip 4) (ISlice (Some (- (_n (strip 4) + 1))) None None)
  = __getitem__ (strip 4) (ISlice (Some (- 1)) None None)
  ∧ ∀ value,
      __setitem__ (strip 4) (ISlice (Some (- (_n (strip 4) + 1))) None None) value
      = __setitem__ (strip 4) (ISlice (Some (- 1)) None None) value.
Proof.
  split; [split; reflexivity|].
  apply (slice_start_wraps_twice (strip 4) 1 None);
    [split; reflexivity | split; (lia || by vm_compute)].
Defined.

(** ** Composing rotations *)

Lemma rotate_mod self count count' :
  count `mod` _n self = count' `mod` _n self → rotate self count = rotate self count'.
Proof. intros H. unfold rotate. by rewrite H. Qed.

(** Rotation by [k <> 0] pixels, on the bytes. *)
Lemma rotate_bytes self count :
  wf self → count `mod` _n self ≠ 0 →
  ∃ buf',
    rotate self count = ({| _n := _n self; _data := buf' |}, Return tt)
    ∧ length buf' = length (_data self)
    ∧ ∀ p, (p < length buf')%nat →
        buf' !! p
        = _data self !! (if decide (p < 12 * Z.to_nat (count `mod` _n self))%nat
                         then 12 * Z.to_nat (_n self - count `mod` _n self) + p
                         else p - 12 * Z.to_nat (count `mod` _n self))%nat.
Proof.
  intros Hwf Hc. pose proof (wf_length self Hwf) as HL.
  pose proof (Z.mod_pos_bound count (_n self) ltac:(destruct Hwf; lia)).
  destruct (rotate_shift self count Hwf Hc) as (buf' & Hr & Hl & Hlk).
  exists buf'. split_and!; [done..|].
  intros p Hp. rewrite Hlk by done.
  repeat case_decide; try lia; f_equal; lia.
Qed.

Lemma mod_sum a b m :
  0 < m →
  (a + b) `mod` m
  = if decide (a `mod` m + b `mod` m < m) then a `mod` m + b `mod` m
    else a `mod` m + b `mod` m - m.
Proof.
  intros Hm. pose proof (Z.mod_pos_bound a m Hm). pose proof (Z.mod_pos_bound b m Hm).
  rewrite Z.add_mod by lia. case_decide.
  - apply Z.mod_small. lia.
  - symmetry. apply (Z.mod_unique_pos _ _ 1); lia.
Qed.

(** X12: rotations compose.  When none of [a], [b] and [a + b] is a
    multiple of [pixel_count], [rotate(a)] followed by [rotate(b)] leaves
    exactly the object that one [rotate(a + b)] leaves. *)
Theorem rotate_compose (self : NeoPixel) (a b : Z) :
  wf self →
  a `mod` _n self ≠ 0 → b `mod` _n self ≠ 0 → (a + b) `mod` _n self ≠ 0 →
  ∃ self1 self2,
    rotate self a = (self1, Return tt)
    ∧ rotate self1 b = (self2, Return tt)
    ∧ rotate self (a + b) = (self2, Return tt).
Proof.
  intros Hwf Ha Hb Hab. pose proof (wf_length self Hwf) as HL.
  assert (0 < _n self) as Hn by (destruct Hwf; lia).
  destruct (rotate_bytes self a Hwf Ha) as (buf1 & Hr1 & Hl1 & Hk1).
  assert (wf {| _n := _n self; _data := buf1 |}) as Hwf1
    by (destruct Hwf; split; simpl; [done|congruence]).
  destruct (rotate_bytes _ b Hwf1 Hb) as (buf2 & Hr2 & Hl2 & Hk2).
  destruct (rotate_bytes self (a + b) Hwf Hab) as (buf3 & Hr3 & Hl3 & Hk3).
  cbn [_n _data] in *.
  exists {| _n := _n self; _data := buf1 |}, {| _n := _n self; _data := buf2 |}.
  split_and!; [done..|]. rewrite Hr3. do 2 f_equal.
  pose proof (Z.mod_pos_bound a (_n self) Hn). pose proof (Z.mod_pos_bound b (_n self) Hn).
  pose proof (mod_sum a b (_n self) Hn) as E. case_decide.
  all: apply list_eq; intros p; destruct (decide (p < length buf3)%nat) as [Hp|Hp].
  all: try (rewrite !(proj2 (lookup_ge_None _ _)); [done|lia..]).
  all: rewrite Hk3, Hk2 by lia; rewrite Hk1 by (case_decide; lia).
  all: f_equal; repeat case_decide; lia.
Qed.

Lemma rotate_compose_witness :
  wf rainbow ∧
  ∃ self1 self2,
    rotate rainbow 3 = (self1, Return tt)
    ∧ rotate self1 (-6) = (self2, Return tt)
    ∧ rotate rainbow (3 + -6) = (self2, Return tt).
Proof.
  split; [split; reflexivity|].
  apply (rotate_compose rainbow 3 (-6)); [split; reflexivity | by vm_compute..].
Defined.

(** X13: a rotation is undone by the opposite one.  For [k] not a multiple
    of [pixel_count], [rotate(k)] followed by [rotate(-k)], or by
    [rotate(pixel_count - k)], gives back the object it started from, byte
    for byte. *)
Theorem rotate_back (self : NeoPixel) (k : Z) :
  wf self → k `mod` _n self ≠ 0 →
  ∃ self',
    rotate self k = (self', Return tt)
    ∧ rotate self' (- k) = (self, Return tt)
    ∧ rotate self' (_n self - k) = (self, Return tt).
Proof.
  intros Hwf Hk. pose proof (wf_length self Hwf) as HL.
  assert (0 < _n self) as Hn by (destruct Hwf; lia).
  assert ((- k) `mod` _n self = _n self - k `mod` _n self) as Hopp
    by (apply Z.mod_opp_l_nz; lia).
  pose proof (Z.mod_pos_bound k (_n self) Hn).
  destruct (rotate_bytes self k Hwf Hk) as (buf1 & Hr1 & Hl1 & Hk1).
  assert (wf {| _n := _n self; _data := buf1 |}) as Hwf1
    by (destruct Hwf; split; simpl; [done|congruence]).
  destruct (rotate_bytes _ (- k) Hwf1) as (buf2 & Hr2 & Hl2 & Hk2).
  { cbn [_n]. lia. }
  cbn [_n _data] in *. rewrite Hopp in Hk2.
  assert (buf2 = _data self) as ->.
  { apply list_eq. intros p. destruct (decide (p < length buf2)%nat) as [Hp|Hp].
    - rewrite Hk2 by lia. rewrite Hk1 by (case_decide; lia).
      f_equal. repeat case_decide; lia.
    - rewrite !(proj2 (lookup_ge_None _ _)); [done|lia..]. }
  exists {| _n := _n self; _data := buf1 |}. split_and!; [done| |].
  - rewrite Hr2. by destruct self.
  - rewrite (rotate_mod _ (_n self - k) (- k)).
    + rewrite Hr2. by destruct self.
    + cbn [_n]. replace (_n self - k) with (- k + 1 * _n self) by lia.
      apply Z_mod_plus_full.
Qed.

Lemma rotate_back_witness :
  wf rainbow ∧
  ∃ self',
    rotate rainbow 1 = (self', Return tt)
    ∧ rotate self' (- 1) = (rainbow, Return tt)
    ∧ rotate self' (_n rainbow - 1) = (rainbow, Return tt).
Proof.
  split; [split; reflexivity|].
  apply (rotate_back rainbow 1); [split; reflexivity | by vm_compute].
Defined.

(** ** Rejected calls *)

Lemma method_raise {A} self e : method self (@raise A e) = (self, Raise e).
Proof. unfold method, raise. by destruct self. Qed.

(** X14: a pixel index below [-pixel_count] or at or above [pixel_count]
    is refused with IndexError by the single-index and the paired get and
    set, and so is a channel outside [0..2]; the set forms check the index
    before they look at the value, and leave the object as it was. *)
Theorem index_out_of_range (self : NeoPixel) (i ch : Z) :
  (i < - _n self ∨ _n self ≤ i) ∨ (ch < 0 ∨ 3 ≤ ch) →
  __getitem__ self (ITuple [IInt i; IInt ch]) = Raise IndexError
  ∧ (∀ value, __setitem__ self (ITuple [IInt i; IInt ch]) value = (self, Raise IndexError))
  ∧ (i < - _n self ∨ _n self ≤ i →
     __getitem__ self (IInt i) = Raise IndexError
     ∧ ∀ value, __setitem__ self (IInt i) value = (self, Raise IndexError)).
Proof.
  intros H. split_and!.
  - unfold __getitem__. by zbool.
  - intros value. unfold __setitem__. zbool; apply method_raise.
  - intros Hi. split.
    + unfold __getitem__. by zbool.
    + intros value. unfold __setitem__. zbool; apply method_raise.
Qed.

Lemma index_out_of_range_witness :
  __getitem__ (strip 4) (ITuple [IInt 10; IInt 0]) = Raise IndexError
  ∧ (∀ value,
       __setitem__ (strip 4) (ITuple [IInt 10; IInt 0]) value = (strip 4, Raise IndexError))
  ∧ (10 < - _n (strip 4) ∨ _n (strip 4) ≤ 10 →
     __getitem__ (strip 4) (IInt 10) = Raise IndexError
     ∧ ∀ value, __setitem__ (strip 4) (IInt 10) value = (strip 4, Raise IndexError)).
Proof.
  apply (index_out_of_range (strip 4) 10 0). left. right. by vm_compute.
Defined.



(** X16: values the set forms refuse, with ValueError and an unchanged
    object.  At a valid pixel index anything but a 3-tuple is refused; at a
    valid (pixel, channel) pair anything but an integer is refused; on every
    step-1 slice whose view [dd] is not empty, in bounds or clamped, with or
    without a stop, anything that is neither a 3-tuple nor a list whose
    elements are all 3-tuples is refused; in particular on every slice with
    normalized bounds [0 <= s < e <= pixel_count]. *)
Theorem value_rejected (self : NeoPixel) (i ch : Z) (value : pyvalue) :
  wf self → 0 ≤ i < _n self → 0 ≤ ch < 3 →
  (is_3tuple value = false →
     __setitem__ self (IInt i) value = (self, Raise ValueError))
  ∧ ((∀ v, value ≠ VInt v) →
     __setitem__ self (ITuple [IInt i; IInt ch]) value = (self, Raise ValueError))
  ∧ (∀ start stop step s e st,
       _unpack_slice self start stop step = Return (s, e, st) →
       mv_len (mv_slice (data_view self) (Some (s * 12)) (Some (e * 12))) ≠ 0%nat →
       is_3tuple value = false →
       (∀ l, value = VList l → forallb is_3tuple l = false) →
       __setitem__ self (ISlice start stop step) value = (self, Raise ValueError))
  ∧ (∀ start stop step s e st,
       _unpack_slice self start stop step = Return (s, e, st) →
       0 ≤ s → s < e → e ≤ _n self →
       is_3tuple value = false →
       (∀ l, value = VList l → forallb is_3tuple l = false) →
       __setitem__ self (ISlice start stop step) value = (self, Raise ValueError)).
Proof.
  intros Hwf Hi Hch. pose proof (wf_length self Hwf) as HL.
  assert (∀ start stop step s e st,
       _unpack_slice self start stop step = Return (s, e, st) →
       mv_len (mv_slice (data_view self) (Some (s * 12)) (Some (e * 12))) ≠ 0%nat →
       is_3tuple value = false →
       (∀ l, value = VList l → forallb is_3tuple l = false) →
       __setitem__ self (ISlice start stop step) value = (self, Raise ValueError))
    as Hslice.
  { intros start stop step s e st Hu Hdd H3 Hlist. unfold __setitem__, method.
    rewrite Hu, bind_read_return. rewrite decide_False by done.
    destruct value as [|[|v0 [|v1 [|v2 [|]]]]|l|]; try discriminate H3;
      try (by destruct self).
    rewrite (Hlist l eq_refl). by destruct self. }
  split_and!.
  - intros H3. unfold __setitem__. zbool.
    destruct value as [|[|v0 [|v1 [|v2 [|]]]]| |]; try discriminate H3; apply method_raise.
  - intros Hv. unfold __setitem__. zbool.
    destruct value as [v| | |]; [by destruct (Hv v)|apply method_raise..].
  - exact Hslice.
  - intros start stop step s e st Hu Hs Hse He. apply (Hslice _ _ _ s e st Hu).
    rewrite data_slice by done. cbn [mv_len]. rewrite !clamp_inside by lia. lia.
Qed.

Lemma value_rejected_witness :
  wf rainbow ∧
  __setitem__ rainbow (IInt 1) (VInt 7) = (rainbow, Raise ValueError)
  ∧ __setitem__ rainbow (ITuple [IInt 1; IInt 0]) (triple 1 2 3) = (rainbow, Raise ValueError)
  ∧ __setitem__ rainbow (ISlice (Some 0) (Some 2) None) (VList [triple 1 2 3; VInt 5])
    = (rainbow, Raise ValueError)
  ∧ __setitem__ rainbow (ISlice (Some 1) (Some 10) None) (VInt 7)
    = (rainbow, Raise ValueError).
Proof.
  split; [split; reflexivity|].
  destruct (value_rejected rainbow 1 0 (VInt 7)) as (H1 & _ & H3 & _);
    [split; reflexivity | split; (lia || by vm_compute) | lia |].
  destruct (value_rejected rainbow 1 0 (triple 1 2 3)) as (_ & H2 & _);
    [split; reflexivity | split; (lia || by vm_compute) | lia |].
  destruct (value_rejected rainbow 1 0 (VList [triple 1 2 3; VInt 5])) as (_ & _ & _ & H4);
    [split; reflexivity | split; (lia || by vm_compute) | lia |].
  split_and!.
  - apply H1. reflexivity.
  - apply H2. intros v. discriminate.
  - apply (H4 (Some 0) (Some 2) None 0 2 1); [reflexivity | lia | lia | by vm_compute | reflexivity |].
    intros l [= <-]. reflexivity.
  - apply (H3 (Some 1) (Some 10) None 1 10 1); [reflexivity | by vm_compute | reflexivity |].
    intros l. discriminate.
Defined.

(** ** What a list assignment stores *)

(** The list loop when the list is long enough for every element it reads:
    pixel [j] of the view receives element [4 * j]. *)
Lemma list_loop_ok off k vs m :
  ∀ a buf,
    (a + m = k)%nat → (m = 0 ∨ 4 * (k - 1) < length vs)%nat →
    (off + 12 * k ≤ length buf)%nat →
    ∃ buf',
      for_each ((fun j => 12 * j)%nat <$> seq a m) (fun i =>
        match triples vs !! (i / 3)%nat with
        | None => raise IndexError
        | Some (VTuple [v0; v1; v2]) =>
            let i := Z.of_nat i in
            _expand_byte v0 (mv_slice (MView off (12 * k)) (Some (i + 0)) (Some (i + 4))) ;;
            _expand_byte v1 (mv_slice (MView off (12 * k)) (Some (i + 4)) (Some (i + 8))) ;;
            _expand_byte v2 (mv_slice (MView off (12 * k)) (Some (i + 8)) (Some (i + 12)))
        | Some _ => raise ValueError
        end) buf
      = (buf', Return tt)
      ∧ length buf' = length buf
      ∧ (∀ j t, a ≤ j < k → t < 12 →
           ∃ x y z, vs !! (4 * j) = Some (x, y, z)
                    ∧ buf' !! (off + 12 * j + t) = expand_pixel x y z !! t)%nat
      ∧ (∀ p, p < off + 12 * a ∨ off + 12 * k ≤ p → buf' !! p = buf !! p)%nat.
Proof.
  set (body := fun i : nat => match _ with None => _ | Some _ => _ end).
  induction m as [|m IH]; intros a buf Hk Hvs Hlen.
  { exists buf. split_and!; [done..|intros; lia|done]. }
  destruct Hvs as [|Hvs]; [lia|].
  rewrite <- cons_seq, fmap_cons, for_each_cons. unfold body at 1.
  replace (12 * a / 3)%nat with (4 * a)%nat
    by (apply (Nat.div_unique _ 3 _ 0); lia).
  rewrite lookup_triples.
  destruct (vs !! (4 * a)%nat) as [[[x y] z]|] eqn:Hv;
    [|apply lookup_ge_None in Hv; lia].
  cbn [fmap option_fmap option_map triple]. unfold bind.
  rewrite expand_byte_inside by lia.
  rewrite expand_byte_inside by (rewrite ?length_inserts; lia).
  rewrite expand_byte_inside by (rewrite ?length_inserts; lia).
  replace (off + Z.to_nat (Z.of_nat (12 * a) + 0))%nat with (off + 12 * a)%nat by lia.
  replace (off + Z.to_nat (Z.of_nat (12 * a) + 4))%nat with (off + 12 * a + 4)%nat by lia.
  replace (off + Z.to_nat (Z.of_nat (12 * a) + 8))%nat with (off + 12 * a + 8)%nat by lia.
  rewrite inserts_expand_pixel by lia.
  destruct (IH (S a) (list_inserts (off + 12 * a) (expand_pixel x y z) buf))
    as (buf' & -> & Hl & Hin & Hout).
  { lia. }
  { right. lia. }
  { rewrite length_inserts. lia. }
  exists buf'. split_and!; [done|by rewrite Hl, length_inserts| |].
  - intros j t Hj Ht. destruct (decide (j = a)) as [->|Hne].
    + exists x, y, z. split; [done|]. rewrite Hout by lia.
      rewrite lookup_inserts by (rewrite length_expand_pixel; lia).
      rewrite decide_True by (rewrite length_expand_pixel; lia). f_equal. lia.
    + apply Hin; lia.
  - intros p Hp. rewrite Hout by lia.
    rewrite lookup_inserts by (rewrite length_expand_pixel; lia).
    by rewrite decide_False by (rewrite length_expand_pixel; lia).
Qed.

(** X18: what assigning a list of integer triples to an in-bounds slice of
    [k >= 1] pixels does when it succeeds.  The loop reads element [4 * j] of
    the list for pixel [j] of the slice: with more than [4 * (k - 1)]
    elements in the list the assignment returns, pixel [s + j] then reads as
    element [4 * j] of the list (components modulo 256), and the pixels
    outside the slice read as before. *)
Theorem list_assignment_every_fourth
    (self : NeoPixel) (start stop step : option Z) (s e st : Z) (vs : list (Z * Z * Z)) :
  wf self → _unpack_slice self start stop step = Return (s, e, st) →
  0 ≤ s → s < e → e ≤ _n self →
  (4 * (Z.to_nat (e - s) - 1) < length vs)%nat →
  ∃ self',
    __setitem__ self (ISlice start stop step) (VList (triples vs)) = (self', Return tt)
    ∧ wf self'
    ∧ (∀ j : nat, (j < Z.to_nat (e - s))%nat →
         ∃ x y z,
           vs !! (4 * j)%nat = Some (x, y, z)
           ∧ __getitem__ self' (IInt (s + Z.of_nat j))
             = Return (triple (x `mod` 256) (y `mod` 256) (z `mod` 256)))
    ∧ (∀ i, 0 ≤ i < _n self → i < s ∨ e ≤ i →
         __getitem__ self' (IInt i) = __getitem__ self (IInt i)).
Proof.
  intros Hwf Hu Hs Hse He Hvs. pose proof (wf_length self Hwf) as HL.
  destruct (list_loop_ok (12 * Z.to_nat s) (Z.to_nat e - Z.to_nat s) vs
              (Z.to_nat e - Z.to_nat s) 0 (_data self))
    as (buf' & Hloop & Hl & Hin & Hout); [lia|right; lia|lia|].
  assert (wf {| _n := _n self; _data := buf' |}) as Hwf'
    by (destruct Hwf; split; simpl; [done|congruence]).
  exists {| _n := _n self; _data := buf' |}. split_and!; [|done| |].
  - unfold __setitem__. apply method_run. rewrite Hu, bind_read_return.
    rewrite data_slice by done. cbn [mv_len]. rewrite !clamp_inside by lia.
    rewrite decide_False by lia. rewrite triples_3tuple, py_range_12_0.
    exact Hloop.
  - intros j Hj. destruct (Hin j 0%nat) as (x & y & z & Hv & _); [lia..|].
    exists x, y, z. split; [done|].
    rewrite (getitem_int _ _ Hwf') by (cbn [_n]; lia). cbn [_data].
    apply pixel_of_bytes. intros t Ht.
    destruct (Hin j t) as (x' & y' & z' & Hv' & Hb); [lia..|].
    rewrite Hv in Hv'. injection Hv' as <- <- <-. rewrite <- Hb. f_equal. lia.
  - intros i Hi Hio. rewrite (getitem_int _ i Hwf') by done.
    rewrite (getitem_int self i Hwf) by done. cbn [_data].
    apply pixel_ext. intros t ?. apply Hout. lia.
Qed.

Lemma list_assignment_every_fourth_witness :
  wf (strip 2) ∧
  ∃ self',
    __setitem__ (strip 2) (ISlice (Some 0) (Some 2) None)
      (VList (triples [(1, 1, 1); (2, 2, 2); (3, 3, 3); (4, 4, 4); (5, 5, 5)]))
    = (self', Return tt)
    ∧ wf self'
    ∧ (∀ j : nat, (j < Z.to_nat (2 - 0))%nat →
         ∃ x y z,
           [(1, 1, 1); (2, 2, 2); (3, 3, 3); (4, 4, 4); (5, 5, 5)] !! (4 * j)%nat
           = Some (x, y, z)
           ∧ __getitem__ self' (IInt (0 + Z.of_nat j))
             = Return (triple (x `mod` 256) (y `mod` 256) (z `mod` 256)))
    ∧ (∀ i, 0 ≤ i < _n (strip 2) → i < 0 ∨ 2 ≤ i →
         __getitem__ self' (IInt i) = __getitem__ (strip 2) (IInt i)).
Proof.
  split; [split; reflexivity|].
  apply (list_assignment_every_fourth (strip 2) (Some 0) (Some 2) None 0 2 1
           [(1, 1, 1); (2, 2, 2); (3, 3, 3); (4, 4, 4); (5, 5, 5)]);
    [split; reflexivity | reflexivity | lia | lia | by vm_compute | simpl; lia].
Defined.
